(** * DataPoblator: bulk loading of JSON record files into DynamoDB tables

  A shallow embedding of [DataPoblator.py].  The remote store (boto3), the
  file system, the thread pool and the random generator are not part of the
  program: their answers are taken as explicit inputs (scripts), and the
  functions of the program are translated as they are written, exceptions
  and early returns included.

  Not modelled: what is printed, the pauses themselves ([time.sleep] is only
  recorded in the worker's log), and exceptions that are not subclasses of
  [Exception].  A scan is taken to end after finitely many pages. *)

From Stdlib Require Import ZArith QArith Qround Qpower Lqa Bool String Ascii Arith Lia Permutation List.
Import ListNotations.

Set Implicit Arguments.
#[local] Set Warnings "-register-all".

Local Open Scope string_scope.
Local Open Scope list_scope.
Local Open Scope Z_scope.

(** ** Python values *)

Section Values.

(** A binary floating-point number and [str] on it are kept abstract. *)
Variable float : Type.
Variable str : float -> string.

(** What [json.load] yields (None, bool, int, float, str, list, dict), plus
    [decimal.Decimal], written as the string it is built from.  A dict keeps
    its insertion order. *)
Inductive value : Type :=
| VNone
| VBool (b : bool)
| VInt (n : Z)
| VFloat (x : float)
| VStr (s : string)
| VDecimal (digits : string)
| VList (elements : list value)
| VDict (entries : list (string * value)).

(** [convert_float_to_decimal(obj)] *)
Fixpoint convert_float_to_decimal (obj : value) : value :=
  match obj with
  | VList elements => VList (map convert_float_to_decimal elements)
  | VDict entries =>
      VDict (map (fun '(key, v) => (key, convert_float_to_decimal v)) entries)
  | VFloat x => VDecimal (str x)
  | _ => obj
  end.

(** Does a binary float occur anywhere in the value? *)
Fixpoint has_float (obj : value) : bool :=
  match obj with
  | VFloat _ => true
  | VList elements => existsb has_float elements
  | VDict entries => existsb (fun '(_, v) => has_float v) entries
  | _ => false
  end.

(** The re-encoding as the specification words it: a float [x] becomes
    [Decimal(str(x))]; every other scalar stays; a list keeps its length and
    order; a mapping keeps its keys and their order. *)
Inductive reencoded : value -> value -> Prop :=
| re_none : reencoded VNone VNone
| re_bool b : reencoded (VBool b) (VBool b)
| re_int n : reencoded (VInt n) (VInt n)
| re_str s : reencoded (VStr s) (VStr s)
| re_decimal d : reencoded (VDecimal d) (VDecimal d)
| re_float x : reencoded (VFloat x) (VDecimal (str x))
| re_list l l' : Forall2 reencoded l l' -> reencoded (VList l) (VList l')
| re_dict d d' :
    Forall2 (fun kv kv' => fst kv = fst kv' /\ reencoded (snd kv) (snd kv')) d d' ->
    reencoded (VDict d) (VDict d').

(** Induction on values that reaches below lists and dicts. *)
Fixpoint value_nested_ind (P : value -> Prop)
    (Hnone : P VNone) (Hbool : forall b, P (VBool b)) (Hint : forall n, P (VInt n))
    (Hfloat : forall x, P (VFloat x)) (Hstr : forall s, P (VStr s))
    (Hdec : forall d, P (VDecimal d))
    (Hlist : forall l, Forall P l -> P (VList l))
    (Hdict : forall d, Forall (fun kv => P (snd kv)) d -> P (VDict d))
    (v : value) {struct v} : P v :=
  let rec := value_nested_ind Hnone Hbool Hint Hfloat Hstr Hdec Hlist Hdict in
  match v with
  | VNone => Hnone
  | VBool b => Hbool b
  | VInt n => Hint n
  | VFloat x => Hfloat x
  | VStr s => Hstr s
  | VDecimal d => Hdec d
  | VList l =>
      Hlist l ((fix go (l : list value) : Forall P l :=
                  match l with
                  | [] => Forall_nil P
                  | x :: r => Forall_cons x (rec x) (go r)
                  end) l)
  | VDict d =>
      Hdict d ((fix go (d : list (string * value)) : Forall (fun kv => P (snd kv)) d :=
                  match d with
                  | [] => Forall_nil _
                  | kv :: r => Forall_cons kv (rec (snd kv)) (go r)
                  end) d)
  end.

End Values.

Arguments VNone {float}.
Arguments VBool {float} b.
Arguments VInt {float} n.
Arguments VStr {float} s.
Arguments VDecimal {float} digits.
Arguments VList {float} elements.
Arguments VDict {float} entries.

(** ** Slicing into batches *)

Section Batching.

Variable A : Type.

(** [range(start, stop, step)] for a positive step. *)
Definition py_range (start stop step : nat) : list nat :=
  map (fun k => (start + k * step)%nat) (seq 0 ((stop - start + step - 1) / step)).

(** [items[i:j]] for [0 <= i <= j]; a slice never raises, it stops at the end. *)
Definition slice (items : list A) (i j : nat) : list A :=
  firstn (j - i) (skipn i items).

(** [[items[i:i + batch_size] for i in range(0, total_items, batch_size)]] *)
Definition split_batches (batch_size : nat) (items : list A) : list (list A) :=
  map (fun i => slice items i (i + batch_size))
      (py_range 0 (length items) batch_size).

End Batching.

(** [batch_size = 25] *)
Definition batch_size : nat := 25.

(** [ceil(n / b)] on naturals. *)
Definition ceil_div (n b : nat) : nat := ((n + b - 1) / b)%nat.

(** ** Exceptions and results *)

(** The exceptions the program tells apart.  All of them are subclasses of
    [Exception]; a [ClientError] carries [e.response['Error']['Code']]. *)
Inductive exn : Type :=
| ClientError (code : string)
| FileNotFoundError
| JSONDecodeError
| KeyError
| ValueError
| OtherException.

(** A call either returns or raises. *)
Inductive result (A : Type) : Type :=
| Returned (a : A)
| Raised (e : exn).

Arguments Raised {A} e.

Definition THROTTLED : string := "ProvisionedThroughputExceededException".
Definition NOT_FOUND : string := "ResourceNotFoundException".

(** ** The batch write engine: [batch_write_items] *)

Section Poblator.

Variable float : Type.
Variable str : float -> string.

Abbreviation item := (value float).

(** What the store does during one [with table.batch_writer()] block:
    [put_item_raises pos] is what [batch_writer.put_item] raises for the item at
    position [pos] of the batch ([None]: it returns), [exit_raises] what leaving
    the block raises ([None]: nothing). *)
Record bulk_attempt : Type := {
  put_item_raises : nat -> option exn;
  exit_raises : option exn
}.

(** [local_success], [local_errors] *)
Record counters : Type := {
  local_success : Z;
  local_errors : Z
}.

(** What a worker does that can be observed from outside. *)
Inductive event : Type :=
| EvBulkWrite (attempt : nat)
| EvPut (it : item)
| EvSleep (seconds : Q).

(** [for item in batch: try: batch_writer.put_item(Item=item) ... except ...]:
    the counters when the loop ends, the calls made, and the exception that left
    the loop, if any. *)
Fixpoint put_items (script : bulk_attempt) (pos : nat) (batch : list item)
    (c : counters) : counters * list event * option exn :=
  match batch with
  | [] => (c, [], None)
  | it :: rest =>
      match put_item_raises script pos with
      | None =>
          let '(c', log, raised) :=
            put_items script (S pos) rest
              {| local_success := local_success c + 1; local_errors := local_errors c |} in
          (c', EvPut it :: log, raised)
      | Some (ClientError code) =>
          if String.eqb code THROTTLED
          then (c, [EvPut it], Some (ClientError code))
          else
            let '(c', log, raised) :=
              put_items script (S pos) rest
                {| local_success := local_success c; local_errors := local_errors c + 1 |} in
            (c', EvPut it :: log, raised)
      | Some _ =>
          let '(c', log, raised) :=
            put_items script (S pos) rest
              {| local_success := local_success c; local_errors := local_errors c + 1 |} in
          (c', EvPut it :: log, raised)
      end
  end.

(** [with table.batch_writer() as batch_writer: for item in batch: ...]:
    an exception raised on leaving the block replaces one in flight. *)
Definition bulk_write (script : bulk_attempt) (attempt : nat) (batch : list item)
    (c : counters) : counters * list event * option exn :=
  let '(c', log, raised) := put_items script 0 batch c in
  (c', EvBulkWrite attempt :: log,
   match exit_raises script with
   | Some e => Some e
   | None => raised
   end).

(** The integer nearest to [x], the even one of the two when [x] lies half way. *)
Definition round_half_even (x : Q) : Z :=
  let f := Qfloor x in
  match (x - inject_Z f ?= 1 # 2)%Q with
  | Lt => f
  | Gt => f + 1
  | Eq => if Z.even f then f else f + 1
  end.

(** The double nearest to [x], ties to even, for [1 <= x] below the overflow
    threshold [2^1024]: with [2^e <= x < 2^(e+1)], a multiple of [2^(e-52)]. *)
Definition binary64 (x : Q) : Q :=
  let e := Z.log2 (Qfloor x) in
  (inject_Z (round_half_even (x * 2 ^ (52 - e))) * 2 ^ (e - 52))%Q.

(** [wait_time = (2 ** attempt) + random_module.uniform(0, 1)]: the integer is
    added to a double, and the sum is the double nearest to the exact one. *)
Definition wait_time (attempt : nat) (uniform : Q) : Q :=
  binary64 (inject_Z (2 ^ Z.of_nat attempt) + uniform).

Definition zero_counters : counters := {| local_success := 0; local_errors := 0 |}.

(** The body of [for attempt in range(max_retries)], over the attempts left. *)
Fixpoint retry_loop (store : nat -> bulk_attempt) (uniform : nat -> Q)
    (max_retries : nat) (batch : list item) (attempts : list nat) (c : counters)
    : result (Z * Z) * list event :=
  match attempts with
  | [] => (Returned (local_success c, local_errors c), [])
  | attempt :: rest =>
      let '(c', log, raised) := bulk_write (store attempt) attempt batch c in
      match raised with
      | None => (Returned (local_success c', local_errors c'), log)
      | Some (ClientError error_code) =>
          if String.eqb error_code THROTTLED then
            if Z.of_nat attempt <? Z.of_nat max_retries - 1 then
              let '(r, log') :=
                retry_loop store uniform max_retries batch rest zero_counters in
              (r, log ++ EvSleep (wait_time attempt (uniform attempt)) :: log')
            else
              let '(r, log') := retry_loop store uniform max_retries batch rest c' in
              (r, log ++ log')
          else
            (Returned (0, local_errors c' + Z.of_nat (length batch)), log)
      | Some e => (Raised e, log)
      end
  end.

(** [process_batch_with_retry(batch, max_retries=5)], with its log. *)
Definition process_batch_with_retry_log (store : nat -> bulk_attempt)
    (uniform : nat -> Q) (batch : list item) (max_retries : nat)
    : result (Z * Z) * list event :=
  retry_loop store uniform max_retries batch (seq 0 max_retries) zero_counters.

Definition process_batch_with_retry (store : nat -> bulk_attempt)
    (uniform : nat -> Q) (batch : list item) (max_retries : nat) : result (Z * Z) :=
  fst (process_batch_with_retry_log store uniform batch max_retries).

Definition default_max_retries : nat := 5.

(** What surrounds one call of [batch_write_items]: the store's behaviour for
    each batch (by index) and attempt, the jitter each worker draws, the order
    in which [as_completed] yields the futures, and the point where the pool
    itself fails: [submit_fault = Some j] when [executor.submit] raises at the
    batch of index [j], [collect_fault = Some k] when an exception leaves the
    [for future in as_completed(futures)] loop after [k] futures were handled. *)
Record pool_env : Type := {
  store : nat -> nat -> bulk_attempt;
  uniform : nat -> nat -> Q;
  completion_order : list nat;
  submit_fault : option nat;
  collect_fault : option nat
}.

(** The future of the batch of index [i]: the batch and what its worker does. *)
Definition future_of (env : pool_env) (i : nat) (batch : list item)
    : list item * result (Z * Z) :=
  (batch, process_batch_with_retry (store env i) (uniform env i) batch default_max_retries).

Fixpoint submit_all (env : pool_env) (i : nat) (batches : list (list item))
    : list (list item * result (Z * Z)) :=
  match batches with
  | [] => []
  | batch :: rest => future_of env i batch :: submit_all env (S i) rest
  end.

(** The body of [for future in as_completed(futures)], folded over the
    futures in completion order:
    [success_count += local_success; error_count += local_errors], or
    [error_count += len(futures[future])] when [future.result()] raises. *)
Fixpoint merge_results (futures : list (list item * result (Z * Z)))
    (order : list nat) (tally : Z * Z) : Z * Z :=
  match order with
  | [] => tally
  | i :: rest =>
      match nth_error futures i with
      | Some (_, Returned (s, e)) =>
          merge_results futures rest (fst tally + s, snd tally + e)
      | Some (batch, Raised _) =>
          merge_results futures rest (fst tally, snd tally + Z.of_nat (length batch))
      | None => merge_results futures rest tally
      end
  end.

(** The [for future in as_completed(futures)] loop and what follows it: the
    normal [return success_count, error_count], or the handler of the outer
    [except Exception], [return success_count, total_items - success_count]. *)
Definition collect_results (env : pool_env) (total_items : Z)
    (futures : list (list item * result (Z * Z))) : Z * Z :=
  match collect_fault env with
  | Some k =>
      let '(success_count, _) :=
        merge_results futures (firstn k (completion_order env)) (0, 0) in
      (success_count, total_items - success_count)
  | None => merge_results futures (completion_order env) (0, 0)
  end.

(** Does [executor.submit] raise before every batch is submitted? *)
Definition submit_raises (env : pool_env) (batches : list (list item)) : option nat :=
  match submit_fault env with
  | Some j => if (j <? length batches)%nat then Some j else None
  | None => None
  end.

(** [batch_write_items(table, items, table_name)]: the returned pair and the
    batches handed to [executor.submit]. *)
Definition batch_write_items_run (env : pool_env) (items : list item)
    : (Z * Z) * list (list item) :=
  let success_count := 0 in
  let total_items := Z.of_nat (length items) in
  let batches := split_batches batch_size items in
  let num_threads := Nat.min 10 (length batches) in
  if (num_threads =? 0)%nat then
    (* ThreadPoolExecutor(max_workers=0) raises ValueError: except Exception *)
    ((success_count, total_items - success_count), [])
  else
    match submit_raises env batches with
    | Some j => ((success_count, total_items - success_count), firstn j batches)
    | None => (collect_results env total_items (submit_all env 0 batches), batches)
    end.

Definition batch_write_items (env : pool_env) (items : list item) : Z * Z :=
  fst (batch_write_items_run env items).

Definition submitted_batches (env : pool_env) (items : list item) : list (list item) :=
  snd (batch_write_items_run env items).


(** ** Purge: [delete_all_items_from_table] *)

(** A dict as the list of its entries, in insertion order. *)
Abbreviation dict := (list (string * item)).

(** [d[key]]: [None] stands for [KeyError]. *)
Fixpoint dict_get (d : dict) (key : string) : option item :=
  match d with
  | [] => None
  | (k, v) :: rest => if String.eqb k key then Some v else dict_get rest key
  end.

(** [d[key] = v] *)
Fixpoint dict_set (d : dict) (key : string) (v : item) : dict :=
  match d with
  | [] => [(key, v)]
  | (k, w) :: rest =>
      if String.eqb k key then (k, v) :: rest else (k, w) :: dict_set rest key v
  end.

(** What [table.scan] answers: it raises, or gives a page without
    ['LastEvaluatedKey'], or a page with one and, with it, what the store
    answers to the scan that starts from that key.  ['Items'] may be absent. *)
Inductive scan_session : Type :=
| ScanRaises (e : exn)
| LastPage (Items : option (list dict))
| MorePages (Items : option (list dict)) (LastEvaluatedKey : dict) (next : scan_session).

(** The store during one purge: the scan, what [batch.delete_item] raises at
    each position and what leaving the [with] block raises. *)
Record purge_env : Type := {
  scan : scan_session;
  delete_item_raises : nat -> option exn;
  delete_exit_raises : option exn
}.

(** [response.get('Items', [])] *)
Definition get_Items (Items : option (list dict)) : list dict :=
  match Items with
  | Some l => l
  | None => []
  end.

(** [response = table.scan(); items = ...; while 'LastEvaluatedKey' in response: ...]:
    the items gathered and the [ExclusiveStartKey] of each scan call made
    ([None] for the first call). *)
Fixpoint scan_pages (response : scan_session) (start : option dict) (items : list dict)
    : result (list dict) * list (option dict) :=
  match response with
  | ScanRaises e => (Raised e, [start])
  | LastPage page => (Returned (items ++ get_Items page), [start])
  | MorePages page key next =>
      let '(r, calls) := scan_pages next (Some key) (items ++ get_Items page) in
      (r, start :: calls)
  end.

(** [if sk_name:] *)
Definition truthy (name : option string) : bool :=
  match name with
  | Some s => negb (String.eqb s EmptyString)
  | None => false
  end.

(** [key = {pk_name: item[pk_name]}; if sk_name: key[sk_name] = item[sk_name]] *)
Definition key_of (pk_name : string) (sk_name : option string) (it : dict) : result dict :=
  match dict_get it pk_name with
  | None => Raised KeyError
  | Some v =>
      let key := [(pk_name, v)] in
      match sk_name with
      | Some sk =>
          if truthy sk_name then
            match dict_get it sk with
            | None => Raised KeyError
            | Some w => Returned (dict_set key sk w)
            end
          else Returned key
      | None => Returned key
      end
  end.

(** [for item in items: ... batch.delete_item(Key=key)]: the keys passed to
    [delete_item] and the exception that left the loop, if any. *)
Fixpoint delete_items (env : purge_env) (pk_name : string) (sk_name : option string)
    (pos : nat) (items : list dict) : list dict * option exn :=
  match items with
  | [] => ([], None)
  | it :: rest =>
      match key_of pk_name sk_name it with
      | Raised e => ([], Some e)
      | Returned key =>
          match delete_item_raises env pos with
          | Some e => ([key], Some e)
          | None =>
              let '(keys, raised) := delete_items env pk_name sk_name (S pos) rest in
              (key :: keys, raised)
          end
      end
  end.

(** The two handlers of [delete_all_items_from_table]. *)
Definition purge_handler (e : exn) : bool :=
  match e with
  | ClientError error_code => String.eqb error_code NOT_FOUND
  | _ => false
  end.

(** What one purge does: the value returned, the scan calls and the delete
    requests. *)
Record purge_run : Type := {
  purge_returned : bool;
  scan_calls : list (option dict);
  delete_requests : list dict
}.

(** [delete_all_items_from_table(table_name, pk_name, sk_name=None)] *)
Definition delete_all_items_run (env : purge_env) (pk_name : string)
    (sk_name : option string) : purge_run :=
  let '(scanned, calls) := scan_pages (scan env) None [] in
  match scanned with
  | Raised e => {| purge_returned := purge_handler e; scan_calls := calls; delete_requests := [] |}
  | Returned items =>
      match items with
      | [] => {| purge_returned := true; scan_calls := calls; delete_requests := [] |}
      | _ :: _ =>
          let '(keys, raised) := delete_items env pk_name sk_name 0 items in
          let raised := match delete_exit_raises env with
                        | Some e => Some e
                        | None => raised
                        end in
          match raised with
          | None => {| purge_returned := true; scan_calls := calls; delete_requests := keys |}
          | Some e =>
              {| purge_returned := purge_handler e; scan_calls := calls; delete_requests := keys |}
          end
      end
  end.

Definition delete_all_items_from_table (env : purge_env) (pk_name : string)
    (sk_name : option string) : bool :=
  purge_returned (delete_all_items_run env pk_name sk_name).

(** ** One table: [populate_table] *)

(** An entry of [TABLE_MAPPING]. *)
Record table_config : Type := {
  table_name : string;
  pk : string;
  sk : option string
}.

(** [table_config] as built in [create_table]; a key schema entry is
    (AttributeName, KeyType), an attribute definition (AttributeName,
    AttributeType). *)
Record create_request : Type := {
  TableName : string;
  KeySchema : list (string * string);
  AttributeDefinitions : list (string * string);
  BillingMode : string
}.

(** Everything outside the program that one call of [populate_table] meets. *)
Record world : Type := {
  describe_table_raises : string -> option exn;
  create_table_raises : create_request -> option exn;
  wait_until_exists_raises : option exn;
  scan_limit_1 : result (option Z);
  purge : purge_env;
  json_load : string -> result item;
  pool : pool_env
}.

(** [table_exists(table_name)] *)
Definition table_exists (w : world) (name : string) : result bool :=
  match describe_table_raises w name with
  | None => Returned true
  | Some (ClientError code) =>
      if String.eqb code NOT_FOUND then Returned false else Raised (ClientError code)
  | Some e => Raised e
  end.

(** [create_table(table_name, pk_name, sk_name=None)] *)
Definition create_table (w : world) (name pk_name : string) (sk_name : option string)
    : result bool :=
  let key_schema := [(pk_name, "HASH")] in
  let attribute_definitions := [(pk_name, "S")] in
  let '(key_schema, attribute_definitions) :=
    match sk_name with
    | Some s =>
        if truthy sk_name
        then (key_schema ++ [(s, "RANGE")], attribute_definitions ++ [(s, "S")])
        else (key_schema, attribute_definitions)
    | None => (key_schema, attribute_definitions)
    end in
  let request := {| TableName := name; KeySchema := key_schema;
                    AttributeDefinitions := attribute_definitions;
                    BillingMode := "PAY_PER_REQUEST" |} in
  match create_table_raises w request with
  | Some (ClientError _) => Returned false
  | Some e => Raised e
  | None =>
      match wait_until_exists_raises w with
      | Some (ClientError _) => Returned false
      | Some e => Raised e
      | None => Returned true
      end
  end.

(** [load_json_file(filename)]: [Returned None] is the Python [None]. *)
Definition load_json_file (w : world) (filename : string) : result (option item) :=
  match json_load w filename with
  | Returned data => Returned (Some (convert_float_to_decimal str data))
  | Raised FileNotFoundError => Returned None
  | Raised JSONDecodeError => Returned None
  | Raised e => Raised e
  end.

(** [populate_table], from [items = load_json_file(filename)] on. *)
Definition load_and_write (w : world) (filename : string) : result bool :=
  match load_json_file w filename with
  | Raised e => Raised e
  | Returned None => Returned false
  | Returned (Some (VList items)) =>
      match items with
      | [] => Returned true
      | _ :: _ =>
          let '(success_count, error_count) := batch_write_items (pool w) items in
          Returned (error_count =? 0)
      end
  | Returned (Some _) => Returned false
  end.

(** [populate_table(dynamodb, filename, table_config, global_action=None)] *)
Definition populate_table (w : world) (filename : string) (config : table_config)
    (global_action : option string) : result bool :=
  match table_exists w (table_name config) with
  | Raised e => Raised e
  | Returned false =>
      match create_table w (table_name config) (pk config) (sk config) with
      | Raised e => Raised e
      | Returned false => Returned false
      | Returned true => load_and_write w filename
      end
  | Returned true =>
      match global_action with
      | Some action =>
          if String.eqb action "replace" then
            match scan_limit_1 w with
            | Returned Count =>
                if (match Count with Some n => n | None => 0 end) >? 0 then
                  if negb (delete_all_items_from_table (purge w) (pk config) (sk config))
                  then Returned false
                  else load_and_write w filename
                else load_and_write w filename
            | Raised _ => load_and_write w filename
            end
          else load_and_write w filename
      | None => load_and_write w filename
      end
  end.

(** ** Observations used to state the properties *)

(** The exception that leaves the [with] block of an attempt. *)
Definition bulk_write_raises (script : bulk_attempt) (batch : list item) : option exn :=
  snd (bulk_write script 0 batch zero_counters).

(** The counters an attempt reaches when it starts from zero. *)
Definition attempt_counts (script : bulk_attempt) (batch : list item) : counters :=
  fst (fst (bulk_write script 0 batch zero_counters)).

(** The attempts and the delays recorded in a worker's log. *)
Fixpoint attempts_of (log : list event) : list nat :=
  match log with
  | [] => []
  | EvBulkWrite attempt :: rest => attempt :: attempts_of rest
  | _ :: rest => attempts_of rest
  end.

Fixpoint sleeps_of (log : list event) : list Q :=
  match log with
  | [] => []
  | EvSleep seconds :: rest => seconds :: sleeps_of rest
  | _ :: rest => sleeps_of rest
  end.

(** What collecting one future adds to [(success_count, error_count)]. *)
Definition contribution (future : list item * result (Z * Z)) : Z * Z :=
  match future with
  | (_, Returned (s, e)) => (s, e)
  | (batch, Raised _) => (0, Z.of_nat (length batch))
  end.

Definition zsum (l : list Z) : Z := fold_right Z.add 0 l.

(** The items that the store holds on the pages of a scan, in page order (a
    page that comes without ['Items'] holds none), and the continuation keys
    it hands out. *)
Fixpoint session_items (session : scan_session) : list dict :=
  match session with
  | ScanRaises _ => []
  | LastPage (Some rows) => rows
  | LastPage None => []
  | MorePages (Some rows) _ next => rows ++ session_items next
  | MorePages None _ next => session_items next
  end.

Fixpoint session_keys (session : scan_session) : list dict :=
  match session with
  | MorePages _ key next => key :: session_keys next
  | _ => []
  end.

Fixpoint scan_succeeds (session : scan_session) : bool :=
  match session with
  | ScanRaises _ => false
  | LastPage _ => true
  | MorePages _ _ next => scan_succeeds next
  end.

(** The first exception a scan meets, if any. *)
Fixpoint scan_fault (session : scan_session) : option exn :=
  match session with
  | ScanRaises e => Some e
  | LastPage _ => None
  | MorePages _ _ next => scan_fault next
  end.

End Poblator.

Arguments EvBulkWrite {float} attempt.
Arguments EvSleep {float} seconds.
Arguments ScanRaises {float} e.

(** ** The run: configuration, prompt and [main] *)

Section Coordinator.

Variable float : Type.
Variable str : float -> string.

(** [str.strip] is kept abstract. *)
Variable strip : string -> string.

(** The items a worker's log shows as put, in order. *)
Fixpoint puts_of (log : list (event float)) : list (value float) :=
  match log with
  | [] => []
  | EvPut it :: rest => it :: puts_of rest
  | _ :: rest => puts_of rest
  end.

(** An entry of [TABLE_MAPPING] as the module builds it: the table name is
    what [os.getenv] gave, [None] when the variable is not set. *)
Record mapping_entry : Type := {
  entry_table_name : option string;
  entry_pk : string;
  entry_sk : option string
}.

(** [TABLE_MAPPING], in insertion order. *)
Definition TABLE_MAPPING (getenv : string -> option string)
    : list (string * mapping_entry) :=
  [ ("locales.json",
     {| entry_table_name := getenv "TABLE_LOCALES"; entry_pk := "local_id";
        entry_sk := None |});
    ("usuarios.json",
     {| entry_table_name := getenv "TABLE_USUARIOS"; entry_pk := "correo";
        entry_sk := None |});
    ("productos.json",
     {| entry_table_name := getenv "TABLE_PRODUCTOS"; entry_pk := "local_id";
        entry_sk := Some "nombre" |});
    ("empleados.json",
     {| entry_table_name := getenv "TABLE_EMPLEADOS"; entry_pk := "local_id";
        entry_sk := Some "dni" |});
    ("combos.json",
     {| entry_table_name := getenv "TABLE_COMBOS"; entry_pk := "local_id";
        entry_sk := Some "combo_id" |});
    ("pedidos.json",
     {| entry_table_name := getenv "TABLE_PEDIDOS"; entry_pk := "local_id";
        entry_sk := Some "pedido_id" |});
    ("ofertas.json",
     {| entry_table_name := getenv "TABLE_OFERTAS"; entry_pk := "local_id";
        entry_sk := Some "oferta_id" |});
    ("resenas.json",
     {| entry_table_name := getenv "TABLE_RESENAS"; entry_pk := "pk";
        entry_sk := Some "resena_id" |}) ].

(** [TABLE_TOKENS_CONFIG] *)
Definition TABLE_TOKENS_CONFIG (getenv : string -> option string) : mapping_entry :=
  {| entry_table_name := getenv "TABLE_TOKENS"; entry_pk := "token"; entry_sk := None |}.

(** [TABLE_MAPPING.get(filename)] *)
Fixpoint mapping_get (mapping : list (string * mapping_entry)) (filename : string)
    : option mapping_entry :=
  match mapping with
  | [] => None
  | (name, config) :: rest =>
      if String.eqb name filename then Some config else mapping_get rest filename
  end.

(** [get_table_keys(filename)]; a config dict has three keys, so [if config:]
    asks whether the file is in the mapping. *)
Definition get_table_keys (getenv : string -> option string) (filename : string)
    : option string * option string :=
  match mapping_get (TABLE_MAPPING getenv) filename with
  | Some config => (Some (entry_pk config), entry_sk config)
  | None => (None, None)
  end.

(** [missing_tables] of [verify_table_names]. *)
Definition missing_tables (getenv : string -> option string) : list string :=
  map fst (filter (fun '(_, config) => negb (truthy (entry_table_name config)))
                  (TABLE_MAPPING getenv)).

(** [verify_table_names()] *)
Definition verify_table_names (getenv : string -> option string) : bool :=
  match missing_tables getenv with
  | [] => true
  | _ :: _ => false
  end.

(** [ask_user_action_global()]: [stdin] holds the lines still to be read;
    [input] raises [EOFError] when none is left.  The value returned or the
    exception, and the lines left unread. *)
Fixpoint ask_user_action_global (stdin : list string) : result string * list string :=
  match stdin with
  | [] => (Raised OtherException, [])
  | line :: rest =>
      let choice := strip line in
      if String.eqb choice "1" then (Returned "append", rest)
      else if String.eqb choice "2" then (Returned "replace", rest)
      else ask_user_action_global rest
  end.

(** Everything outside the program that one run of [main] meets:
    the environment variables, whether the session has credentials
    ([get_credentials]), whether [DATA_DIR] exists, what connecting and
    [list_tables] raise, the store as seen for the tokens table and for the
    table of each file, and the lines typed. *)
Record run_env : Type := {
  getenv : string -> option string;
  get_credentials : result bool;
  data_dir_exists : bool;
  connect_raises : option exn;
  tokens_world : world float;
  table_world : string -> world float;
  stdin : list string
}.

(** [verify_credentials()]: [credentials is None] gives [False], so does any
    exception. *)
Definition verify_credentials (env : run_env) : bool :=
  match get_credentials env with
  | Returned has_credentials => has_credentials
  | Raised _ => false
  end.

(** [get_dynamodb_client()]: the resource, or [None]. *)
Definition get_dynamodb_client (env : run_env) : option unit :=
  match connect_raises env with
  | None => Some tt
  | Some _ => None
  end.

(** The step of [main] on the tokens table. *)
Definition ensure_tokens_table (env : run_env) : result unit :=
  let config := TABLE_TOKENS_CONFIG (getenv env) in
  match entry_table_name config with
  | Some name =>
      if truthy (entry_table_name config) then
        match table_exists (tokens_world env) name with
        | Raised e => Raised e
        | Returned true => Returned tt
        | Returned false =>
            match create_table (tokens_world env) name (entry_pk config) (entry_sk config) with
            | Raised e => Raised e
            | Returned _ => Returned tt
            end
        end
      else Returned tt
  | None => Returned tt
  end.

(** [results[filename] = success] *)
Fixpoint results_set (results : list (string * bool)) (filename : string) (success : bool)
    : list (string * bool) :=
  match results with
  | [] => [(filename, success)]
  | (name, b) :: rest =>
      if String.eqb name filename then (name, success) :: rest
      else (name, b) :: results_set rest filename success
  end.

(** [for filename, config in TABLE_MAPPING.items(): if config["table_name"]: ...] *)
Fixpoint populate_all (env : run_env) (global_action : string)
    (mapping : list (string * mapping_entry)) (results : list (string * bool))
    : result (list (string * bool)) :=
  match mapping with
  | [] => Returned results
  | (filename, config) :: rest =>
      match entry_table_name config with
      | Some name =>
          if truthy (entry_table_name config) then
            match populate_table str (table_world env filename) filename
                    {| table_name := name; pk := entry_pk config; sk := entry_sk config |}
                    (Some global_action) with
            | Raised e => Raised e
            | Returned success =>
                populate_all env global_action rest (results_set results filename success)
            end
          else populate_all env global_action rest results
      | None => populate_all env global_action rest results
      end
  end.

(** [successful] and [failed] of the final summary. *)
Definition summary (results : list (string * bool)) : Z * Z :=
  let successful := Z.of_nat (length (filter (fun '(_, success) => success) results)) in
  let failed := Z.of_nat (length results) - successful in
  (successful, failed).

(** [main()], with the [results] it has gathered when it ends; [None] when it
    returns before the tables are populated. *)
Definition main (env : run_env) : result (option (list (string * bool))) :=
  if negb (verify_credentials env) then Returned None
  else
    let _ := verify_table_names (getenv env) in
    if negb (data_dir_exists env) then Returned None
    else
      match get_dynamodb_client env with
      | None => Returned None
      | Some dynamodb =>
          match ensure_tokens_table env with
          | Raised e => Raised e
          | Returned _ =>
              match fst (ask_user_action_global (stdin env)) with
              | Raised e => Raised e
              | Returned global_action =>
                  match populate_all env global_action (TABLE_MAPPING (getenv env)) [] with
                  | Raised e => Raised e
                  | Returned results => Returned (Some results)
                  end
              end
          end
      end.

End Coordinator.

(** ** More observations *)

(** Does [put_item] return for the item at [pos]? *)
Definition accepted (script : bulk_attempt) (pos : nat) : bool :=
  match put_item_raises script pos with
  | None => true
  | Some _ => false
  end.

(** How many of the positions [start, start + n) are accepted. *)
Definition count_accepted (script : bulk_attempt) (start n : nat) : Z :=
  Z.of_nat (length (filter (accepted script) (seq start n))).

(** The entries of [TABLE_MAPPING] whose table name is set, in order. *)
Definition configured (getenv : string -> option string) : list (string * mapping_entry) :=
  filter (fun '(_, config) => truthy (entry_table_name config)) (TABLE_MAPPING getenv).

Section RunObservations.

Variable float : Type.
Variable str : float -> string.

(** The call of [populate_table] that [main] makes for an entry. *)
Definition populate_entry (env : run_env float) (global_action : string)
    (filename : string) (config : mapping_entry) : result bool :=
  match entry_table_name config with
  | Some name =>
      populate_table str (table_world env filename) filename
        {| table_name := name; pk := entry_pk config; sk := entry_sk config |}
        (Some global_action)
  | None => Returned false
  end.

End RunObservations.

(** ** Concrete stores and inputs *)

(** In the examples a float is written as a rational. *)
Definition record_1 : value Q :=
  VDict [("local_id", VStr "LOCAL-0001"); ("nombre", VStr "Arroz Chaufa")].

Definition one_record : list (value Q) := [record_1].

Definition records_25 : list (value Q) := repeat record_1 25.

(** A store whose bulk write is throttled when the item at [pos] is put. *)
Definition throttle_at (pos : nat) : bulk_attempt :=
  {| put_item_raises := fun p => if (p =? pos)%nat then Some (ClientError THROTTLED) else None;
     exit_raises := None |}.

(** A store that rejects the item put first and then fails the bulk write as
    a whole with a validation error. *)
Definition reject_then_fail : bulk_attempt :=
  {| put_item_raises := fun p => if (p =? 0)%nat then Some OtherException else None;
     exit_raises := Some (ClientError "ValidationException") |}.

Definition half : Q := 1 # 2.

(** One batch, throttled at its 25th item at every attempt. *)
Definition throttled_pool : pool_env :=
  {| store := fun _ _ => throttle_at 24;
     uniform := fun _ _ => half;
     completion_order := [0%nat];
     submit_fault := None;
     collect_fault := None |}.

(** A store that takes every item into the buffer and throttles the flush on
    leaving the bulk write. *)
Definition throttle_on_exit : bulk_attempt :=
  {| put_item_raises := fun _ => None;
     exit_raises := Some (ClientError THROTTLED) |}.

Definition flush_throttled_pool : pool_env :=
  {| store := fun _ _ => throttle_on_exit;
     uniform := fun _ _ => half;
     completion_order := [0%nat];
     submit_fault := None;
     collect_fault := None |}.

(** A store that accepts every item. *)
Definition accept_all : bulk_attempt :=
  {| put_item_raises := fun _ => None; exit_raises := None |}.

Definition quiet_pool : pool_env :=
  {| store := fun _ _ => accept_all;
     uniform := fun _ _ => half;
     completion_order := [0%nat];
     submit_fault := None;
     collect_fault := None |}.

(** A table of two pages, one row each. *)
Definition row_a : list (string * value Q) :=
  [("local_id", VStr "LOCAL-0001"); ("nombre", VStr "Arroz Chaufa"); ("precio", VDecimal "18.5")].

Definition row_b : list (string * value Q) :=
  [("local_id", VStr "LOCAL-0002"); ("nombre", VStr "Wantan Frito"); ("precio", VDecimal "12.0")].

Definition two_pages : scan_session Q :=
  MorePages (Some [row_a]) [("local_id", VStr "LOCAL-0001"); ("nombre", VStr "Arroz Chaufa")]
            (LastPage (Some [row_b])).

Definition quiet_purge : purge_env Q :=
  {| scan := two_pages;
     delete_item_raises := fun _ => None;
     delete_exit_raises := None |}.

(** [TABLE_MAPPING["productos.json"]], the table name read from the environment. *)
Definition productos_config : table_config :=
  {| table_name := "ChinaWok-Productos"; pk := "local_id"; sk := Some "nombre" |}.

(** In the examples [str] gives every float the same digits. *)
Definition example_str (x : Q) : string := "18.5".

(** A run in which nothing fails. *)
Definition quiet_world : world Q :=
  {| describe_table_raises := fun _ => None;
     create_table_raises := fun _ => None;
     wait_until_exists_raises := None;
     scan_limit_1 := Returned (Some 1);
     purge := quiet_purge;
     json_load := fun _ => Returned (VList [VDict [("local_id", VStr "LOCAL-0001");
                                                   ("nombre", VStr "Arroz Chaufa");
                                                   ("precio", VFloat (37 # 2))]]);
     pool := quiet_pool |}.

(** The same run when [describe_table] is refused. *)
Definition denied_world : world Q :=
  {| describe_table_raises := fun _ => Some (ClientError "AccessDeniedException");
     create_table_raises := create_table_raises quiet_world;
     wait_until_exists_raises := None;
     scan_limit_1 := scan_limit_1 quiet_world;
     purge := quiet_purge;
     json_load := json_load quiet_world;
     pool := quiet_pool |}.

(** The table is missing and the waiter gives up after the creation. *)
Definition waiter_fails_world : world Q :=
  {| describe_table_raises := fun _ => Some (ClientError NOT_FOUND);
     create_table_raises := fun _ => None;
     wait_until_exists_raises := Some OtherException;
     scan_limit_1 := scan_limit_1 quiet_world;
     purge := quiet_purge;
     json_load := json_load quiet_world;
     pool := quiet_pool |}.

(** The file is there but cannot be read. *)
Definition unreadable_world : world Q :=
  {| describe_table_raises := fun _ => None;
     create_table_raises := fun _ => None;
     wait_until_exists_raises := None;
     scan_limit_1 := scan_limit_1 quiet_world;
     purge := quiet_purge;
     json_load := fun _ => Raised OtherException;
     pool := quiet_pool |}.

(** Records that can be told apart. *)
Definition numbered (n : nat) : list (value Q) :=
  map (fun k => VInt (Z.of_nat k)) (seq 0 n).

(** A store that rejects the item put first, and only that one. *)
Definition reject_first : bulk_attempt :=
  {| put_item_raises := fun p => if (p =? 0)%nat then Some OtherException else None;
     exit_raises := None |}.

(** A store that throttles the first attempt of a batch and accepts the next. *)
Definition throttled_once (attempt : nat) : bulk_attempt :=
  if (attempt =? 0)%nat then throttle_at 0 else accept_all.

(** A store whose bulk write breaks on leaving, with no [ClientError]. *)
Definition exit_breaks : bulk_attempt :=
  {| put_item_raises := fun _ => None; exit_raises := Some OtherException |}.

Definition two_batch_pool : pool_env :=
  {| store := fun _ => throttled_once;
     uniform := fun _ _ => half;
     completion_order := [0%nat; 1%nat];
     submit_fault := None;
     collect_fault := None |}.

(** An empty table whose deletions would all fail. *)
Definition empty_purge : purge_env Q :=
  {| scan := LastPage None;
     delete_item_raises := fun _ => Some OtherException;
     delete_exit_raises := Some OtherException |}.

(** A scan that is refused on its second page. *)
Definition broken_scan_purge : purge_env Q :=
  {| scan := MorePages (Some [row_a]) [("local_id", VStr "LOCAL-0001")]
                       (ScanRaises (ClientError "AccessDeniedException"));
     delete_item_raises := fun _ => None;
     delete_exit_raises := None |}.



(** The probe of the replace policy fails. *)
Definition probe_fails_world : world Q :=
  {| describe_table_raises := fun _ => None;
     create_table_raises := fun _ => None;
     wait_until_exists_raises := None;
     scan_limit_1 := Raised OtherException;
     purge := quiet_purge;
     json_load := json_load quiet_world;
     pool := quiet_pool |}.

(** The table is missing and cannot be created. *)
Definition missing_table_world : world Q :=
  {| describe_table_raises := fun _ => Some (ClientError NOT_FOUND);
     create_table_raises := fun _ => Some (ClientError "LimitExceededException");
     wait_until_exists_raises := None;
     scan_limit_1 := scan_limit_1 quiet_world;
     purge := quiet_purge;
     json_load := json_load quiet_world;
     pool := quiet_pool |}.

(** An environment that names two of the tables. *)
Definition example_getenv (name : string) : option string :=
  if String.eqb name "TABLE_LOCALES" then Some "ChinaWok-Locales"
  else if String.eqb name "TABLE_PRODUCTOS" then Some "ChinaWok-Productos"
  else None.

Definition quiet_run : run_env Q :=
  {| getenv := example_getenv;
     get_credentials := Returned true;
     data_dir_exists := true;
     connect_raises := None;
     tokens_world := quiet_world;
     table_world := fun _ => quiet_world;
     stdin := ["3"; "2"] |}.

Definition denied_run : run_env Q :=
  {| getenv := example_getenv;
     get_credentials := Returned true;
     data_dir_exists := true;
     connect_raises := None;
     tokens_world := quiet_world;
     table_world := fun f => if String.eqb f "locales.json" then denied_world else quiet_world;
     stdin := ["3"; "2"] |}.

Definition no_credentials_run : run_env Q :=
  {| getenv := example_getenv;
     get_credentials := Returned false;
     data_dir_exists := true;
     connect_raises := None;
     tokens_world := denied_world;
     table_world := fun _ => denied_world;
     stdin := [] |}.

(** In the examples [strip] leaves a line as it is. *)
Definition example_strip (line : string) : string := line.


(** One batch whose store rejects the item put first and then fails the bulk
    write as a whole. *)
Definition rejecting_pool : pool_env :=
  {| store := fun _ _ => reject_then_fail;
     uniform := fun _ _ => half;
     completion_order := [0%nat];
     submit_fault := None;
     collect_fault := None |}.

(** A run in which every step below the table fails in a way the code
    catches: the table is missing, its creation is refused, the waiter would
    be refused too, and the file is missing. *)
Definition refused_world : world Q :=
  {| describe_table_raises := fun _ => Some (ClientError NOT_FOUND);
     create_table_raises := fun _ => Some (ClientError "LimitExceededException");
     wait_until_exists_raises := Some (ClientError "ResourceInUseException");
     scan_limit_1 := Raised OtherException;
     purge := broken_scan_purge;
     json_load := fun _ => Raised FileNotFoundError;
     pool := rejecting_pool |}.

(** The table exists and holds items, the scan of the purge is refused. *)
Definition purge_refused_world : world Q :=
  {| describe_table_raises := fun _ => None;
     create_table_raises := fun _ => None;
     wait_until_exists_raises := None;
     scan_limit_1 := Returned (Some 2);
     purge := broken_scan_purge;
     json_load := json_load quiet_world;
     pool := quiet_pool |}.

(** The table exists, the probe fails, and the store rejects the writes. *)
Definition failing_writes_world : world Q :=
  {| describe_table_raises := fun _ => None;
     create_table_raises := fun _ => None;
     wait_until_exists_raises := None;
     scan_limit_1 := Raised OtherException;
     purge := broken_scan_purge;
     json_load := json_load quiet_world;
     pool := rejecting_pool |}.

(** * Properties *)

(** ** The numeric re-encoding *)

Section ValueFacts.

Variable float : Type.
Variable str : float -> string.

Lemma convert_reencoded (obj : value float) :
  reencoded str obj (convert_float_to_decimal str obj).
Proof.
  induction obj using value_nested_ind; simpl; try constructor.
  - induction H as [|x l Hx _ IH]; simpl; constructor; assumption.
  - induction H as [|[k v] d Hv _ IH]; simpl; constructor; auto.
Qed.

Lemma convert_has_no_float (obj : value float) :
  has_float (convert_float_to_decimal str obj) = false.
Proof.
  induction obj using value_nested_ind; simpl; try reflexivity.
  - induction H as [|x l Hx _ IH]; simpl; [reflexivity|].
    rewrite Hx; exact IH.
  - induction H as [|[k v] d Hv _ IH]; simpl in *; [reflexivity|].
    rewrite Hv; exact IH.
Qed.

Lemma Forall2_graph (X Y : Type) (R : X -> Y -> Prop) (f : X -> Y) (l : list X) :
  Forall (fun x => forall y, R x y -> y = f x) l ->
  forall l', Forall2 R l l' -> l' = map f l.
Proof.
  induction 1 as [|x l Hx _ IH]; intros l' H2; inversion H2; subst; simpl.
  - reflexivity.
  - f_equal; auto.
Qed.

(** The relation leaves no choice: it is the graph of the function. *)
Lemma reencoded_is_convert (obj obj' : value float) :
  reencoded str obj obj' -> obj' = convert_float_to_decimal str obj.
Proof.
  revert obj'.
  induction obj as [| | | | | |l IH|d IH] using value_nested_ind;
    intros obj' Hre; inversion Hre; subst; simpl; try reflexivity.
  - f_equal. eapply Forall2_graph; eassumption.
  - f_equal.
    eapply (Forall2_graph (R := fun kv kv' => fst kv = fst kv' /\ reencoded str (snd kv) (snd kv')));
      [|eassumption].
    clear - IH. induction IH as [|[k v] d Hv _ IHd]; constructor; [|assumption].
    intros [k' v'] [Hk Hv']; simpl in *. subst k'. f_equal. auto.
Qed.

(** A value without floats goes through unchanged. *)
Lemma convert_float_free (obj : value float) :
  has_float obj = false -> convert_float_to_decimal str obj = obj.
Proof.
  induction obj using value_nested_ind; simpl; intros Hf; try reflexivity;
    try discriminate.
  - f_equal. induction H as [|x l Hx _ IH]; simpl in *; [reflexivity|].
    apply orb_false_iff in Hf as [Hf1 Hf2].
    rewrite (Hx Hf1), (IH Hf2); reflexivity.
  - f_equal. induction H as [|[k v] d Hv _ IH]; simpl in *; [reflexivity|].
    apply orb_false_iff in Hf as [Hf1 Hf2].
    rewrite (Hv Hf1), (IH Hf2); reflexivity.
Qed.

(** C9: [convert_float_to_decimal] replaces every float [x] by
    [Decimal(str(x))] and leaves the other scalars, the keys and the nesting of
    lists and mappings as they are; its result holds no float, and so does
    every value that [load_json_file] returns. *)
Theorem convert_float_to_decimal_exact (obj : value float) :
  reencoded str obj (convert_float_to_decimal str obj)
  /\ has_float (convert_float_to_decimal str obj) = false
  /\ forall (w : world float) (filename : string),
       match load_json_file str w filename with
       | Returned (Some data) => has_float data = false
       | _ => True
       end.
Proof.
  split; [apply convert_reencoded|].
  split; [apply convert_has_no_float|].
  intros w filename. unfold load_json_file.
  destruct (json_load w filename) as [data|[]]; trivial.
  apply convert_has_no_float.
Qed.

End ValueFacts.

(** ** Batching *)

Section BatchingFacts.

Variable A : Type.

Lemma firstn_plus (n m : nat) (l : list A) :
  firstn (n + m) l = firstn n l ++ firstn m (skipn n l).
Proof.
  revert l; induction n as [|n IH]; intros l; [reflexivity|].
  destruct l as [|x l]; simpl.
  - now rewrite firstn_nil.
  - now rewrite IH.
Qed.

(** [ceil_div n b] is the least [k] with [n <= k * b]. *)
Lemma ceil_div_spec (n b : nat) :
  (0 < b)%nat ->
  (n <= ceil_div n b * b)%nat /\ (forall k, n <= k * b -> ceil_div n b <= k)%nat.
Proof.
  intros Hb. unfold ceil_div.
  pose proof (Nat.div_mod_eq (n + b - 1) b) as Hdm.
  pose proof (Nat.mod_upper_bound (n + b - 1) b ltac:(lia)) as Hlt.
  split; [nia|].
  intros k Hk.
  destruct (Nat.le_gt_cases ((n + b - 1) / b) k) as [|Hgt]; [assumption|exfalso].
  assert ((k + 1) * b <= (n + b - 1) / b * b)%nat by (apply Nat.mul_le_mono_r; lia).
  nia.
Qed.

Lemma py_range_0 (stop step : nat) :
  py_range 0 stop step = map (fun k => k * step)%nat (seq 0 (ceil_div stop step)).
Proof.
  unfold py_range, ceil_div. rewrite Nat.sub_0_r. reflexivity.
Qed.

Lemma split_batches_eq (b : nat) (items : list A) :
  split_batches b items =
  map (fun k => firstn b (skipn (k * b) items)) (seq 0 (ceil_div (length items) b)).
Proof.
  unfold split_batches. rewrite py_range_0, map_map.
  apply map_ext; intros k. unfold slice. f_equal. lia.
Qed.

Lemma concat_prefix (b : nat) (items : list A) (k : nat) :
  concat (map (fun j => firstn b (skipn (j * b) items)) (seq 0 k)) = firstn (k * b) items.
Proof.
  induction k as [|k IH]; [reflexivity|].
  rewrite seq_S, map_app, concat_app, IH. simpl.
  rewrite app_nil_r, <- firstn_plus.
  f_equal; lia.
Qed.

Lemma split_batches_length (b : nat) (items : list A) :
  length (split_batches b items) = ceil_div (length items) b.
Proof. now rewrite split_batches_eq, length_map, length_seq. Qed.

Lemma split_batches_concat (b : nat) (items : list A) :
  (0 < b)%nat -> concat (split_batches b items) = items.
Proof.
  intros Hb. rewrite split_batches_eq, concat_prefix.
  apply firstn_all2. apply ceil_div_spec; assumption.
Qed.

Lemma split_batches_nth (b : nat) (items : list A) (i : nat) :
  (i < ceil_div (length items) b)%nat ->
  nth_error (split_batches b items) i = Some (firstn b (skipn (i * b) items)).
Proof.
  intros Hi. rewrite split_batches_eq.
  rewrite nth_error_map, nth_error_seq.
  destruct (Nat.ltb_spec i (ceil_div (length items) b)); [reflexivity|lia].
Qed.

Lemma split_batches_batch_length (b : nat) (items : list A) (i : nat) (batch : list A) :
  (0 < b)%nat ->
  nth_error (split_batches b items) i = Some batch ->
  (1 <= length batch <= b)%nat
  /\ ((S i < length (split_batches b items))%nat -> length batch = b).
Proof.
  intros Hb Hnth.
  assert (Hi : (i < ceil_div (length items) b)%nat).
  { rewrite <- split_batches_length. apply nth_error_Some. congruence. }
  rewrite split_batches_nth in Hnth by assumption.
  injection Hnth as <-.
  rewrite length_firstn, length_skipn, split_batches_length.
  destruct (ceil_div_spec (length items) Hb) as [_ Hleast].
  assert (Hlt : (i * b < length items)%nat).
  { destruct (Nat.le_gt_cases (length items) (i * b)) as [Hle|]; [|assumption].
    specialize (Hleast i Hle). lia. }
  split; [lia|].
  intros Hnext.
  assert (Hlt' : (S i * b < length items)%nat).
  { destruct (Nat.le_gt_cases (length items) (S i * b)) as [Hle|]; [|assumption].
    specialize (Hleast (S i) Hle). lia. }
  lia.
Qed.

End BatchingFacts.

(** C7: the partition step of [batch_write_items] yields [ceil(N / 25)]
    batches whose concatenation, in order, is the input; every batch holds
    between 1 and 25 items, and every batch but the last exactly 25. *)
Theorem split_batches_partition (A : Type) (items : list A) :
  let batches := split_batches batch_size items in
  length batches = ceil_div (length items) 25
  /\ ((length items <= length batches * 25)%nat
      /\ forall k, (length items <= k * 25)%nat -> (length batches <= k)%nat)
  /\ concat batches = items
  /\ forall i batch, nth_error batches i = Some batch ->
       (1 <= length batch <= 25)%nat
       /\ ((S i < length batches)%nat -> length batch = 25%nat).
Proof.
  intros batches. subst batches.
  assert (Hb : (0 < batch_size)%nat) by (unfold batch_size; lia).
  split; [apply split_batches_length|].
  split.
  { rewrite split_batches_length. apply (ceil_div_spec (length items) Hb). }
  split; [apply split_batches_concat; assumption|].
  intros i batch Hnth. apply (split_batches_batch_length _ _ Hb Hnth).
Qed.

(** ** The worker: [process_batch_with_retry] *)

Section WorkerFacts.

Variable float : Type.

Abbreviation item := (value float).

Lemma put_items_counts (script : bulk_attempt) (batch : list item) :
  forall pos c c' log raised,
    put_items script pos batch c = (c', log, raised) ->
    local_success c <= local_success c'
    /\ local_errors c <= local_errors c'
    /\ (local_success c' - local_success c) + (local_errors c' - local_errors c)
       <= Z.of_nat (length batch)
    /\ (raised = None ->
        (local_success c' - local_success c) + (local_errors c' - local_errors c)
        = Z.of_nat (length batch)).
Proof.
  induction batch as [|it rest IH]; intros pos c c' log raised Hput.
  - simpl in Hput. injection Hput as <- _ <-. simpl. lia.
  - cbn [put_items] in Hput.
    destruct (put_item_raises script pos) as [[code| | | | |]|];
      try (destruct (String.eqb code THROTTLED));
      try (injection Hput as <- _ <-; cbn [length]; split; [lia|split; [lia|split; [lia|discriminate]]]);
      destruct (put_items script (S pos) rest _) as [[c1 log1] raised1] eqn:Hrec;
      injection Hput as <- _ <-;
      apply IH in Hrec; destruct Hrec as (H1 & H2 & H3 & H4);
      cbn [length local_success local_errors] in *;
      rewrite Nat2Z.inj_succ;
      (split; [lia|split; [lia|split; [lia|intros Hn; specialize (H4 Hn); lia]]]).
Qed.

Lemma bulk_write_counts (script : bulk_attempt) (attempt : nat) (batch : list item)
    (c c' : counters) (log : list (event float)) (raised : option exn) :
  bulk_write script attempt batch c = (c', log, raised) ->
  local_success c <= local_success c' <= local_success c + Z.of_nat (length batch)
  /\ local_errors c <= local_errors c'.
Proof.
  unfold bulk_write.
  destruct (put_items script 0 batch c) as [[c1 log1] raised1] eqn:Hput.
  intros H; injection H as <- _ _.
  apply put_items_counts in Hput. lia.
Qed.

(** An attempt raises the same exception whatever the counters it starts from. *)
Lemma put_items_raised (script : bulk_attempt) (batch : list item) :
  forall pos c d, snd (put_items script pos batch c) = snd (put_items script pos batch d).
Proof.
  induction batch as [|it rest IH]; intros pos c d; [reflexivity|].
  cbn [put_items].
  destruct (put_item_raises script pos) as [[code| | | | |]|];
    try (destruct (String.eqb code THROTTLED); [reflexivity|]);
    repeat match goal with
    | |- context [put_items script (S pos) rest ?c1] =>
        let E := fresh "E" in
        destruct (put_items script (S pos) rest c1) as [[? ?] ?] eqn:E
    end;
    match goal with
    | E1 : put_items _ _ _ ?ca = _, E2 : put_items _ _ _ ?cb = _ |- _ =>
        pose proof (IH (S pos) ca cb) as HH; rewrite E1, E2 in HH; exact HH
    end.
Qed.

Lemma bulk_write_raised (script : bulk_attempt) (attempt : nat) (batch : list item)
    (c : counters) :
  snd (bulk_write script attempt batch c) = bulk_write_raises script batch.
Proof.
  unfold bulk_write_raises, bulk_write.
  pose proof (put_items_raised script batch 0 c zero_counters) as H.
  destruct (put_items script 0 batch c) as [[? ?] ?];
    destruct (put_items script 0 batch zero_counters) as [[? ?] ?].
  simpl in *. now rewrite H.
Qed.

Lemma bulk_write_attempt_irrelevant (script : bulk_attempt) (attempt : nat)
    (batch : list item) (c : counters) :
  fst (fst (bulk_write script attempt batch c)) = fst (fst (bulk_write script 0 batch c)).
Proof.
  unfold bulk_write. destruct (put_items script 0 batch c) as [[? ?] ?]. reflexivity.
Qed.

Lemma attempts_of_app (l1 l2 : list (event float)) :
  attempts_of (l1 ++ l2) = attempts_of l1 ++ attempts_of l2.
Proof.
  induction l1 as [|[a|it|q] l1 IH]; simpl; congruence.
Qed.

Lemma sleeps_of_app (l1 l2 : list (event float)) :
  sleeps_of (l1 ++ l2) = sleeps_of l1 ++ sleeps_of l2.
Proof.
  induction l1 as [|[a|it|q] l1 IH]; simpl; congruence.
Qed.

Lemma put_items_log (script : bulk_attempt) (batch : list item) :
  forall pos c,
    attempts_of (snd (fst (put_items script pos batch c))) = []
    /\ sleeps_of (snd (fst (put_items script pos batch c))) = [].
Proof.
  induction batch as [|it rest IH]; intros pos c; [split; reflexivity|].
  cbn [put_items].
  destruct (put_item_raises script pos) as [[code| | | | |]|];
    try (destruct (String.eqb code THROTTLED); [split; reflexivity|]);
    match goal with
    | |- context [put_items script (S pos) rest ?c1] =>
        specialize (IH (S pos) c1);
        destruct (put_items script (S pos) rest c1) as [[? ?] ?]; exact IH
    end.
Qed.

Lemma bulk_write_log (script : bulk_attempt) (attempt : nat) (batch : list item)
    (c : counters) :
  attempts_of (snd (fst (bulk_write script attempt batch c))) = [attempt]
  /\ sleeps_of (snd (fst (bulk_write script attempt batch c))) = [].
Proof.
  unfold bulk_write.
  pose proof (put_items_log script batch 0 c) as [Ha Hs].
  destruct (put_items script 0 batch c) as [[? ?] ?]. simpl in *.
  now rewrite Ha, Hs.
Qed.

(** One round of the retry loop, according to what the attempt raises. *)
Lemma retry_loop_throttled_retry (store : nat -> bulk_attempt) (uniform : nat -> Q)
    (max_retries : nat) (batch : list item) (attempt : nat) (rest : list nat)
    (c : counters) :
  bulk_write_raises (store attempt) batch = Some (ClientError THROTTLED) ->
  Z.of_nat attempt < Z.of_nat max_retries - 1 ->
  retry_loop store uniform max_retries batch (attempt :: rest) c =
  (fst (retry_loop store uniform max_retries batch rest zero_counters),
   snd (fst (bulk_write (store attempt) attempt batch c))
   ++ EvSleep (wait_time attempt (uniform attempt))
   :: snd (retry_loop store uniform max_retries batch rest zero_counters)).
Proof.
  intros Hthr Hlt. cbn [retry_loop].
  rewrite <- (bulk_write_raised (store attempt) attempt batch c) in Hthr.
  destruct (bulk_write (store attempt) attempt batch c) as [[c' log] raised].
  simpl in Hthr. subst raised.
  change (String.eqb THROTTLED THROTTLED) with true. cbv iota.
  destruct (Z.ltb_spec (Z.of_nat attempt) (Z.of_nat max_retries - 1)); [|lia].
  destruct (retry_loop store uniform max_retries batch rest zero_counters).
  reflexivity.
Qed.

Lemma retry_loop_throttled_last (store : nat -> bulk_attempt) (uniform : nat -> Q)
    (max_retries : nat) (batch : list item) (attempt : nat) (c : counters) :
  bulk_write_raises (store attempt) batch = Some (ClientError THROTTLED) ->
  Z.of_nat max_retries - 1 <= Z.of_nat attempt ->
  retry_loop store uniform max_retries batch [attempt] c =
  (Returned (local_success (fst (fst (bulk_write (store attempt) attempt batch c))),
             local_errors (fst (fst (bulk_write (store attempt) attempt batch c)))),
   snd (fst (bulk_write (store attempt) attempt batch c))).
Proof.
  intros Hthr Hge. cbn [retry_loop].
  rewrite <- (bulk_write_raised (store attempt) attempt batch c) in Hthr.
  destruct (bulk_write (store attempt) attempt batch c) as [[c' log] raised].
  simpl in Hthr. subst raised.
  change (String.eqb THROTTLED THROTTLED) with true. cbv iota.
  destruct (Z.ltb_spec (Z.of_nat attempt) (Z.of_nat max_retries - 1)); [lia|].
  simpl. now rewrite app_nil_r.
Qed.

Lemma retry_loop_bulk_failure (store : nat -> bulk_attempt) (uniform : nat -> Q)
    (max_retries : nat) (batch : list item) (attempt : nat) (rest : list nat)
    (c : counters) (code : string) :
  bulk_write_raises (store attempt) batch = Some (ClientError code) ->
  String.eqb code THROTTLED = false ->
  retry_loop store uniform max_retries batch (attempt :: rest) c =
  (Returned (0, local_errors (fst (fst (bulk_write (store attempt) attempt batch c)))
                + Z.of_nat (length batch)),
   snd (fst (bulk_write (store attempt) attempt batch c))).
Proof.
  intros Hraise Hcode. cbn [retry_loop].
  rewrite <- (bulk_write_raised (store attempt) attempt batch c) in Hraise.
  destruct (bulk_write (store attempt) attempt batch c) as [[c' log] raised].
  simpl in Hraise. subst raised. rewrite Hcode. reflexivity.
Qed.

(** Every outcome a worker can return: its success count never exceeds the
    batch, whatever the store does. *)
Lemma retry_loop_bounds (store : nat -> bulk_attempt) (uniform : nat -> Q)
    (max_retries : nat) (batch : list item) :
  forall n a c,
    (a + n = max_retries)%nat ->
    0 <= local_success c -> 0 <= local_errors c ->
    match fst (retry_loop store uniform max_retries batch (seq a n) c) with
    | Returned (s, e) => 0 <= s <= local_success c + Z.of_nat (length batch) /\ 0 <= e
    | Raised _ => True
    end.
Proof.
  induction n as [|n IH]; intros a c Han Hs He.
  - simpl. lia.
  - cbn [seq retry_loop].
    destruct (bulk_write (store a) a batch c) as [[c' log] raised] eqn:Hbw.
    apply bulk_write_counts in Hbw.
    destruct raised as [[code| | | | |]|]; simpl; try exact I; [|lia].
    destruct (String.eqb code THROTTLED); [|simpl; lia].
    destruct (Z.ltb_spec (Z.of_nat a) (Z.of_nat max_retries - 1)).
    + specialize (IH (S a) zero_counters ltac:(lia) ltac:(simpl; lia) ltac:(simpl; lia)).
      destruct (retry_loop store uniform max_retries batch (seq (S a) n) zero_counters)
        as [[[s e]|] ?]; simpl in *; [lia|exact I].
    + assert (n = 0%nat) by lia. subst n. simpl. lia.
Qed.

Lemma process_batch_with_retry_bounds (store : nat -> bulk_attempt)
    (uniform : nat -> Q) (batch : list item) (max_retries : nat) :
  match process_batch_with_retry store uniform batch max_retries with
  | Returned (s, e) => 0 <= s <= Z.of_nat (length batch) /\ 0 <= e
  | Raised _ => True
  end.
Proof.
  unfold process_batch_with_retry, process_batch_with_retry_log.
  apply (retry_loop_bounds store uniform batch max_retries 0 zero_counters);
    simpl; lia.
Qed.

(** A batch that is throttled at every attempt. *)
Lemma retry_loop_always_throttled (store : nat -> bulk_attempt) (uniform : nat -> Q)
    (max_retries : nat) (batch : list item) :
  (forall attempt, bulk_write_raises (store attempt) batch = Some (ClientError THROTTLED)) ->
  forall n a,
    (a + S n = max_retries)%nat ->
    let run := retry_loop store uniform max_retries batch (seq a (S n)) zero_counters in
    fst run = Returned (local_success (attempt_counts (store (a + n)%nat) batch),
                        local_errors (attempt_counts (store (a + n)%nat) batch))
    /\ attempts_of (snd run) = seq a (S n)
    /\ sleeps_of (snd run) = map (fun k => wait_time k (uniform k)) (seq a n).
Proof.
  intros Hthr. induction n as [|n IH]; intros a Han run; subst run.
  - cbn [seq]. rewrite retry_loop_throttled_last by (auto; lia).
    cbn [fst snd]. rewrite Nat.add_0_r.
    unfold attempt_counts. rewrite bulk_write_attempt_irrelevant.
    destruct (bulk_write_log (store a) a batch zero_counters) as [Ha Hs].
    now rewrite Ha, Hs.
  - change (seq a (S (S n))) with (a :: seq (S a) (S n)).
    rewrite retry_loop_throttled_retry by (auto; lia).
    destruct (IH (S a) ltac:(lia)) as (Hr & Hat & Hsl).
    cbn [fst snd]. rewrite Hr, attempts_of_app, sleeps_of_app.
    destruct (bulk_write_log (store a) a batch zero_counters) as [Ha Hs].
    rewrite Ha, Hs. cbn [attempts_of sleeps_of app]. rewrite Hat, Hsl.
    replace (S a + n)%nat with (a + S n)%nat by lia.
    repeat split; reflexivity.
Qed.

End WorkerFacts.

(** ** The engine: [batch_write_items] *)

Section SumFacts.

Lemma zsum_app (l1 l2 : list Z) : zsum (l1 ++ l2) = zsum l1 + zsum l2.
Proof. induction l1 as [|x l1 IH]; simpl; lia. Qed.

Lemma zsum_permutation (l1 l2 : list Z) : Permutation l1 l2 -> zsum l1 = zsum l2.
Proof. induction 1; simpl; lia. Qed.

Lemma zsum_map_le (X : Type) (f g : X -> Z) (l : list X) :
  (forall x, In x l -> f x <= g x) -> zsum (map f l) <= zsum (map g l).
Proof.
  induction l as [|x l IH]; intros Hle; simpl; [lia|].
  pose proof (Hle x (or_introl eq_refl)).
  assert (zsum (map f l) <= zsum (map g l)) by (apply IH; intros; apply Hle; now right).
  lia.
Qed.

Lemma zsum_nonneg (l : list Z) : Forall (fun x => 0 <= x) l -> 0 <= zsum l.
Proof. induction 1; simpl; lia. Qed.

Lemma zsum_firstn_le (k : nat) (l : list Z) :
  Forall (fun x => 0 <= x) l -> zsum (firstn k l) <= zsum l.
Proof.
  intros Hl. rewrite <- (firstn_skipn k l) at 2. rewrite zsum_app.
  assert (0 <= zsum (skipn k l)); [|lia].
  apply zsum_nonneg. rewrite <- (firstn_skipn k l) in Hl.
  apply Forall_app in Hl. tauto.
Qed.

Lemma map_nth_seq (X : Type) (d : X) (l : list X) :
  map (fun i => nth i l d) (seq 0 (length l)) = l.
Proof.
  induction l as [|x l IH]; [reflexivity|].
  cbn [length seq map nth]. f_equal.
  rewrite <- seq_shift, map_map. exact IH.
Qed.

Lemma zsum_lengths (X : Type) (ls : list (list X)) :
  zsum (map (fun l => Z.of_nat (length l)) ls) = Z.of_nat (length (concat ls)).
Proof.
  induction ls as [|l ls IH]; [reflexivity|].
  simpl. rewrite length_app, Nat2Z.inj_add. lia.
Qed.

End SumFacts.

Section EngineFacts.

Variable float : Type.

Abbreviation item' := (value float).
Abbreviation future := (list item' * result (Z * Z))%type.

(** The loop over the completed futures adds up their contributions. *)
Lemma merge_results_sum (futures : list future) (order : list nat) :
  forall tally,
    merge_results futures order tally =
    (fst tally + zsum (map (fun i => fst (nth i (map (@contribution float) futures) (0, 0))) order),
     snd tally + zsum (map (fun i => snd (nth i (map (@contribution float) futures) (0, 0))) order)).
Proof.
  induction order as [|i order IH]; intros [s e].
  - simpl. f_equal; lia.
  - cbn [merge_results map zsum fold_right].
    assert (Hnth : nth i (map (@contribution float) futures) (0, 0) =
                   match nth_error futures i with
                   | Some f => contribution f
                   | None => (0, 0)
                   end).
    { clear. revert i. induction futures as [|f fs IHf]; intros [|i]; simpl; auto. }
    rewrite Hnth.
    destruct (nth_error futures i) as [[batch [[s1 e1]|err]]|]; rewrite IH; simpl;
      f_equal; unfold zsum; lia.
Qed.

Lemma submit_all_batches (env : pool_env) (batches : list (list item')) :
  forall i, map fst (submit_all env i batches) = batches.
Proof.
  induction batches as [|b bs IH]; intros i; simpl; [reflexivity|].
  now rewrite IH.
Qed.

Lemma submit_all_nth (env : pool_env) (batches : list (list item')) :
  forall k i batch,
    nth_error batches i = Some batch ->
    nth_error (submit_all env k batches) i = Some (future_of env (k + i) batch).
Proof.
  induction batches as [|b bs IH]; intros k [|i] batch Hnth; simpl in *; try discriminate.
  - injection Hnth as ->. now rewrite Nat.add_0_r.
  - rewrite (IH (S k) i batch Hnth). do 2 f_equal. lia.
Qed.

(** What a future adds never exceeds its batch in successes. *)
Lemma submit_all_bounded (env : pool_env) (batches : list (list item')) :
  forall i,
    Forall (fun f : future =>
              0 <= fst (contribution f) <= Z.of_nat (length (fst f))
              /\ 0 <= snd (contribution f))
           (submit_all env i batches).
Proof.
  induction batches as [|b bs IH]; intros i; simpl; constructor; [|apply IH].
  unfold future_of, contribution. cbn [fst].
  pose proof (process_batch_with_retry_bounds (store env i) (uniform env i) b
                default_max_retries) as Hb.
  destruct (process_batch_with_retry (store env i) (uniform env i) b default_max_retries)
    as [[s e]|err]; simpl; lia.
Qed.

(** The tally when the pool does not fail and every future completes once. *)
Lemma collect_results_total (env : pool_env) (total_items : Z) (futures : list future) :
  collect_fault env = None ->
  Permutation (completion_order env) (seq 0 (length futures)) ->
  collect_results env total_items futures =
  (zsum (map fst (map (@contribution float) futures)),
   zsum (map snd (map (@contribution float) futures))).
Proof.
  intros Hno Hperm. unfold collect_results. rewrite Hno, merge_results_sum. simpl.
  set (outs := map (@contribution float) futures).
  assert (Hlen : length futures = length outs) by (unfold outs; now rewrite length_map).
  rewrite Hlen in Hperm.
  f_equal.
  - rewrite (zsum_permutation (Permutation_map (fun i => fst (nth i outs (0, 0))) Hperm)).
    rewrite <- (map_map (fun i => nth i outs (0, 0)) fst), map_nth_seq. reflexivity.
  - rewrite (zsum_permutation (Permutation_map (fun i => snd (nth i outs (0, 0))) Hperm)).
    rewrite <- (map_map (fun i => nth i outs (0, 0)) snd), map_nth_seq. reflexivity.
Qed.

(** Bounds on the tally of any prefix of the completion order. *)
Lemma merge_results_bounds (futures : list future) (order : list nat) (k : nat) :
  Forall (fun f : future =>
            0 <= fst (contribution f) <= Z.of_nat (length (fst f))
            /\ 0 <= snd (contribution f)) futures ->
  Permutation order (seq 0 (length futures)) ->
  0 <= fst (merge_results futures (firstn k order) (0, 0))
       <= Z.of_nat (length (concat (map fst futures)))
  /\ 0 <= snd (merge_results futures (firstn k order) (0, 0)).
Proof.
  intros Hb Hperm. rewrite merge_results_sum. cbn [fst snd].
  set (outs := map (@contribution float) futures).
  set (lens := map (fun f : future => Z.of_nat (length (fst f))) futures).
  assert (Hpoint : forall i,
             0 <= fst (nth i outs (0, 0)) <= nth i lens 0
             /\ 0 <= snd (nth i outs (0, 0)) /\ 0 <= nth i lens 0).
  { subst outs lens. clear - Hb. induction Hb as [|f fs Hf _ IH]; intros [|i]; simpl;
      try lia; apply IH. }
  assert (Hfst : 0 <= zsum (map (fun i => fst (nth i outs (0, 0))) (firstn k order))).
  { apply zsum_nonneg, Forall_forall. intros x Hx.
    apply in_map_iff in Hx as (i & <- & _). apply Hpoint. }
  assert (Hsnd : 0 <= zsum (map (fun i => snd (nth i outs (0, 0))) (firstn k order))).
  { apply zsum_nonneg, Forall_forall. intros x Hx.
    apply in_map_iff in Hx as (i & <- & _). apply Hpoint. }
  assert (Hle : zsum (map (fun i => fst (nth i outs (0, 0))) (firstn k order))
                <= zsum (map (fun i => nth i lens 0) (firstn k order))).
  { apply zsum_map_le. intros i _. apply Hpoint. }
  assert (Hall : zsum (map (fun i => nth i lens 0) (firstn k order))
                 <= Z.of_nat (length (concat (map fst futures)))).
  { rewrite <- firstn_map.
    etransitivity.
    - apply zsum_firstn_le, Forall_forall. intros x Hx.
      apply in_map_iff in Hx as (i & <- & _). apply Hpoint.
    - assert (Hlen : length futures = length lens)
        by (unfold lens; now rewrite length_map).
      rewrite Hlen in Hperm.
      rewrite (zsum_permutation (Permutation_map (fun i => nth i lens 0) Hperm)).
      rewrite map_nth_seq. unfold lens.
      rewrite <- (map_map fst (fun l => Z.of_nat (length l))), zsum_lengths. lia. }
  lia.
Qed.

End EngineFacts.

(** ** Backoff delays *)

Lemma Qfloor_between (x : Q) (n : Z) :
  (inject_Z n <= x)%Q -> (x < inject_Z (n + 1))%Q -> Qfloor x = n.
Proof.
  intros Hle Hlt.
  pose proof (Qfloor_resp_le _ _ Hle) as H1. rewrite Qfloor_Z in H1.
  pose proof (Qfloor_le x) as H2.
  assert (H3 : (inject_Z (Qfloor x) < inject_Z (n + 1))%Q)
    by (eapply Qle_lt_trans; eassumption).
  rewrite <- Zlt_Qlt in H3. lia.
Qed.

Lemma round_half_even_near (x : Q) :
  (inject_Z (round_half_even x) - (1 # 2) <= x)%Q
  /\ (x <= inject_Z (round_half_even x) + (1 # 2))%Q.
Proof.
  unfold round_half_even.
  pose proof (Qfloor_le x) as H1. pose proof (Qlt_floor x) as H2.
  rewrite inject_Z_plus in H2. change (inject_Z 1) with 1%Q in H2.
  destruct (x - inject_Z (Qfloor x) ?= 1 # 2)%Q eqn:Hc.
  - apply Qeq_alt in Hc.
    destruct (Z.even (Qfloor x));
      [|rewrite inject_Z_plus; change (inject_Z 1) with 1%Q]; split; lra.
  - apply Qlt_alt in Hc. split; lra.
  - apply Qgt_alt in Hc. rewrite inject_Z_plus. change (inject_Z 1) with 1%Q.
    split; lra.
Qed.

Lemma round_half_even_ge (x : Q) (m : Z) :
  (inject_Z m <= x)%Q -> m <= round_half_even x.
Proof.
  intros Hle. pose proof (Qfloor_resp_le _ _ Hle) as H. rewrite Qfloor_Z in H.
  unfold round_half_even.
  destruct (x - inject_Z (Qfloor x) ?= 1 # 2)%Q; [destruct (Z.even (Qfloor x))| |]; lia.
Qed.

Lemma round_half_even_le (x : Q) (m : Z) :
  (x <= inject_Z m)%Q -> round_half_even x <= m.
Proof.
  intros Hle. pose proof (Qfloor_resp_le _ _ Hle) as H. rewrite Qfloor_Z in H.
  destruct (Z.eq_dec (Qfloor x) m) as [Heq|Hne].
  - unfold round_half_even. rewrite Heq.
    assert (Hc : (x - inject_Z m ?= 1 # 2)%Q = Lt)
      by (apply (proj1 (Qlt_alt _ _)); lra).
    rewrite Hc. lia.
  - unfold round_half_even.
    destruct (x - inject_Z (Qfloor x) ?= 1 # 2)%Q; [destruct (Z.even (Qfloor x))| |]; lia.
Qed.

Lemma two_not_0 : ~ (2 == 0)%Q.
Proof. discriminate. Qed.

Lemma pow2_scale (a b : Z) :
  0 <= a -> 0 <= b ->
  (inject_Z (2 ^ a) * 2 ^ (b - a) == inject_Z (2 ^ b))%Q.
Proof.
  intros Ha Hb. rewrite !Zpower_Qpower by assumption.
  change (inject_Z 2) with 2%Q.
  rewrite <- Qpower_plus by exact two_not_0.
  replace (a + (b - a)) with b by lia. reflexivity.
Qed.

Section Delay.

Variable a : nat.
Variable u : Q.
Hypothesis Hu0 : (0 <= u)%Q.
Hypothesis Hu1 : (u < 1)%Q.

Lemma pow2_double :
  (inject_Z (2 ^ (Z.of_nat a + 1)) == inject_Z (2 ^ Z.of_nat a) + inject_Z (2 ^ Z.of_nat a))%Q.
Proof.
  rewrite <- inject_Z_plus, Z.pow_add_r by lia.
  change (2 ^ 1) with 2.
  replace (2 ^ Z.of_nat a * 2) with (2 ^ Z.of_nat a + 2 ^ Z.of_nat a) by lia.
  reflexivity.
Qed.

Lemma pow2_ge_1 : (1 <= inject_Z (2 ^ Z.of_nat a))%Q.
Proof.
  change 1%Q with (inject_Z 1). rewrite <- Zle_Qle.
  pose proof (Z.pow_pos_nonneg 2 (Z.of_nat a)). lia.
Qed.

Lemma sum_exponent :
  Z.log2 (Qfloor (inject_Z (2 ^ Z.of_nat a) + u)) = Z.of_nat a.
Proof.
  rewrite (Qfloor_between (n := 2 ^ Z.of_nat a)).
  - apply Z.log2_pow2. lia.
  - lra.
  - rewrite inject_Z_plus. change (inject_Z 1) with 1%Q. lra.
Qed.

(** A delay lies between [2^a] and [2^(a+1)], both included. *)
Lemma wait_time_range :
  (inject_Z (2 ^ Z.of_nat a) <= wait_time a u)%Q
  /\ (wait_time a u <= inject_Z (2 ^ (Z.of_nat a + 1)))%Q.
Proof.
  unfold wait_time, binary64. rewrite sum_exponent.
  set (A := Z.of_nat a). set (x := (inject_Z (2 ^ A) + u)%Q).
  assert (Hs : (0 < 2 ^ (52 - A))%Q) by (apply Qpower_0_lt; reflexivity).
  assert (Ht : (0 < 2 ^ (A - 52))%Q) by (apply Qpower_0_lt; reflexivity).
  assert (HA : 0 <= A) by (unfold A; lia).
  pose proof pow2_ge_1 as H1. pose proof pow2_double as H2. fold A in H1, H2.
  assert (Hlow : (inject_Z (2 ^ 52) <= x * 2 ^ (52 - A))%Q).
  { rewrite <- (@pow2_scale A 52) by lia.
    apply Qmult_le_compat_r; [unfold x; lra|apply Qlt_le_weak; exact Hs]. }
  assert (Hhigh : (x * 2 ^ (52 - A) <= inject_Z (2 ^ 53))%Q).
  { replace (52 - A) with (53 - (A + 1)) by lia.
    rewrite <- (@pow2_scale (A + 1) 53) by lia.
    apply Qmult_le_compat_r; [unfold x; lra|].
    replace (53 - (A + 1)) with (52 - A) by lia. apply Qlt_le_weak; exact Hs. }
  apply round_half_even_ge in Hlow. apply round_half_even_le in Hhigh.
  rewrite Zle_Qle in Hlow. rewrite Zle_Qle in Hhigh.
  split.
  - rewrite <- (@pow2_scale 52 A) by lia.
    apply Qmult_le_compat_r; [exact Hlow|apply Qlt_le_weak; exact Ht].
  - rewrite <- (@pow2_scale 53 (A + 1)) by lia.
    replace (A + 1 - 53) with (A - 52) by lia.
    apply Qmult_le_compat_r; [exact Hhigh|apply Qlt_le_weak; exact Ht].
Qed.

(** A delay is within half a unit in the last place, [2^(a-53)], of the exact
    sum. *)
Lemma wait_time_nearest :
  (wait_time a u - 2 ^ (Z.of_nat a - 53) <= inject_Z (2 ^ Z.of_nat a) + u)%Q
  /\ (inject_Z (2 ^ Z.of_nat a) + u <= wait_time a u + 2 ^ (Z.of_nat a - 53))%Q.
Proof.
  unfold wait_time, binary64. rewrite sum_exponent.
  set (A := Z.of_nat a). set (x := (inject_Z (2 ^ A) + u)%Q).
  assert (Ht : (0 < 2 ^ (A - 52))%Q) by (apply Qpower_0_lt; reflexivity).
  assert (Hst : (2 ^ (52 - A) * 2 ^ (A - 52) == 1)%Q).
  { rewrite <- Qpower_plus by exact two_not_0.
    replace (52 - A + (A - 52)) with 0 by lia. reflexivity. }
  assert (Hhalf : ((1 # 2) * 2 ^ (A - 52) == 2 ^ (A - 53))%Q).
  { replace (A - 52) with (1 + (A - 53)) by lia.
    rewrite Qpower_plus by exact two_not_0. change (2 ^ 1)%Q with 2%Q. field. }
  destruct (round_half_even_near (x * 2 ^ (52 - A))) as [Hlo Hhi].
  set (m := inject_Z (round_half_even (x * 2 ^ (52 - A)))) in *.
  assert (Hx : (x == x * 2 ^ (52 - A) * 2 ^ (A - 52))%Q).
  { rewrite <- Qmult_assoc, Hst. ring. }
  apply (Qmult_le_compat_r _ _ (2 ^ (A - 52))) in Hlo; [|apply Qlt_le_weak; exact Ht].
  apply (Qmult_le_compat_r _ _ (2 ^ (A - 52))) in Hhi; [|apply Qlt_le_weak; exact Ht].
  rewrite <- Hx in Hlo, Hhi. rewrite <- Hhalf.
  split; lra.
Qed.

End Delay.

Lemma wait_time_nondecreasing (a : nat) (u u' : Q) :
  (0 <= u)%Q -> (u < 1)%Q -> (0 <= u')%Q -> (u' < 1)%Q ->
  (wait_time a u <= wait_time (S a) u')%Q.
Proof.
  intros H0 H1 H0' H1'.
  destruct (wait_time_range a H0 H1) as [_ Hup].
  destruct (wait_time_range (S a) H0' H1') as [Hlow _].
  rewrite Nat2Z.inj_succ in Hlow. unfold Z.succ in Hlow.
  eapply Qle_trans; eassumption.
Qed.

(** The bounds are reached: with the largest jitter below 1 that a double
    holds, the first delay is rounded up to 2 seconds, which is also the
    smallest second delay, so two successive delays can be equal. *)
Lemma wait_time_reaches_the_next_power :
  (wait_time 0 (1 - (1 # 2) ^ 53) == 2)%Q /\ (wait_time 1 0 == 2)%Q
  /\ (wait_time 0 half == 3 # 2)%Q.
Proof.
  repeat split; vm_compute; reflexivity.
Qed.

(** ** Throttled attempts at the head of the loop *)

Section RetryFacts.

Variable float : Type.
Variable store : nat -> bulk_attempt.
Variable uniform : nat -> Q.
Variable max_retries : nat.
Variable batch : list (value float).

Lemma retry_loop_after_throttles :
  forall n j rest,
    (forall k, (j <= k < j + n)%nat ->
               bulk_write_raises (store k) batch = Some (ClientError THROTTLED)) ->
    (j + n < max_retries)%nat ->
    exists log,
      retry_loop store uniform max_retries batch (seq j n ++ rest) zero_counters =
      (fst (retry_loop store uniform max_retries batch rest zero_counters),
       log ++ snd (retry_loop store uniform max_retries batch rest zero_counters))
      /\ attempts_of log = seq j n
      /\ sleeps_of log = map (fun k => wait_time k (uniform k)) (seq j n).
Proof.
  induction n as [|n IH]; intros j rest Hthr Hlt.
  - exists []. simpl.
    destruct (retry_loop store uniform max_retries batch rest zero_counters); auto.
  - destruct (IH (S j) rest) as (log & Heq & Hat & Hsl); [intros; apply Hthr; lia|lia|].
    exists (snd (fst (bulk_write (store j) j batch zero_counters))
            ++ EvSleep (wait_time j (uniform j)) :: log).
    cbn [seq app].
    rewrite retry_loop_throttled_retry by (try apply Hthr; lia).
    rewrite Heq. cbn [fst snd].
    destruct (bulk_write_log (store j) j batch zero_counters) as [Ha Hs].
    rewrite attempts_of_app, sleeps_of_app, Ha, Hs. cbn [attempts_of sleeps_of app map].
    rewrite Hat, Hsl, <- app_assoc. auto.
Qed.

Lemma bulk_write_first_events (script : bulk_attempt) (attempt : nat)
    (first : value float) (others : list (value float)) (c : counters) :
  exists tail,
    snd (fst (bulk_write script attempt (first :: others) c))
    = EvBulkWrite attempt :: EvPut first :: tail.
Proof.
  unfold bulk_write. cbn [put_items].
  destruct (put_item_raises script 0) as [[code| | | | |]|];
    try destruct (String.eqb code THROTTLED);
    try destruct (put_items script 1 others _) as [[c1 log1] raised1];
    cbn [fst snd]; eexists; reflexivity.
Qed.

Lemma retry_loop_log_prefix (attempt : nat) (rest : list nat) (c : counters) :
  exists tail,
    snd (retry_loop store uniform max_retries batch (attempt :: rest) c)
    = snd (fst (bulk_write (store attempt) attempt batch c)) ++ tail.
Proof.
  cbn [retry_loop].
  destruct (bulk_write (store attempt) attempt batch c) as [[c' log] raised].
  destruct raised as [[code| | | | |]|];
    try destruct (String.eqb code THROTTLED);
    try destruct (Z.of_nat attempt <? Z.of_nat max_retries - 1);
    repeat match goal with
    | |- context [retry_loop store uniform max_retries batch rest ?c0] =>
        destruct (retry_loop store uniform max_retries batch rest c0)
    end;
    cbn [fst snd];
    first [ exists []; now rewrite app_nil_r | eexists; reflexivity ].
Qed.

Lemma retry_loop_first_events (attempt : nat) (rest : list nat) (first : value float)
    (others : list (value float)) :
  batch = first :: others ->
  exists tail,
    snd (retry_loop store uniform max_retries batch (attempt :: rest) zero_counters)
    = EvBulkWrite attempt :: EvPut first :: tail.
Proof.
  intros Hb.
  destruct (retry_loop_log_prefix attempt rest zero_counters) as (tail & ->).
  rewrite Hb.
  destruct (bulk_write_first_events (store attempt) attempt first others zero_counters)
    as (tail' & ->).
  eexists; reflexivity.
Qed.

End RetryFacts.

(** ** The claims about the batch write engine *)

Section EngineClaims.

Variable float : Type.

Lemma bulk_write_total (script : bulk_attempt) (attempt : nat)
    (batch : list (value float)) (c : counters) :
  let c' := fst (fst (bulk_write script attempt batch c)) in
  local_success c <= local_success c'
  /\ local_errors c <= local_errors c'
  /\ (local_success c' - local_success c) + (local_errors c' - local_errors c)
     <= Z.of_nat (length batch).
Proof.
  unfold bulk_write.
  destruct (put_items script 0 batch c) as [[c1 log1] raised1] eqn:Hput.
  apply put_items_counts in Hput. simpl. lia.
Qed.

Lemma submit_all_length (env : pool_env) (batches : list (list (value float))) (i : nat) :
  length (submit_all env i batches) = length batches.
Proof.
  rewrite <- (submit_all_batches env batches i) at 2. now rewrite length_map.
Qed.

(** C10: whatever the store and the pool do, the pair that [batch_write_items]
    returns for [N] items has [0 <= success_count <= N] and [0 <= error_count];
    each worker reports a success count between 0 and the length of its
    batch.  Every future is taken to complete once. *)
Theorem batch_write_items_counts_in_range (env : pool_env) (items : list (value float)) :
  Permutation (completion_order env) (seq 0 (length (split_batches batch_size items))) ->
  (0 <= fst (batch_write_items env items) <= Z.of_nat (length items)
   /\ 0 <= snd (batch_write_items env items))
  /\ forall i batch,
       nth_error (split_batches batch_size items) i = Some batch ->
       match process_batch_with_retry (store env i) (uniform env i) batch
               default_max_retries with
       | Returned (s, e) => 0 <= s <= Z.of_nat (length batch) /\ 0 <= e
       | Raised _ => True
       end.
Proof.
  intros Hperm. split; [|intros; apply process_batch_with_retry_bounds].
  unfold batch_write_items, batch_write_items_run.
  destruct (Nat.min 10 (length (split_batches batch_size items)) =? 0)%nat;
    [cbn [fst snd]; lia|].
  destruct (submit_raises env (split_batches batch_size items));
    [cbn [fst snd]; lia|].
  cbn [fst snd]. unfold collect_results.
  set (futures := submit_all env 0 (split_batches batch_size items)).
  assert (Hlen : length futures = length (split_batches batch_size items))
    by apply submit_all_length.
  assert (Hitems : concat (map fst futures) = items).
  { unfold futures. rewrite submit_all_batches.
    apply split_batches_concat. unfold batch_size; lia. }
  rewrite <- Hlen in Hperm.
  pose proof (fun k => merge_results_bounds k (submit_all_bounded env _ 0) Hperm) as Hb.
  fold futures in Hb. rewrite Hitems in Hb.
  destruct (collect_fault env) as [k|].
  - specialize (Hb k).
    destruct (merge_results futures (firstn k (completion_order env)) (0, 0)) as [s e].
    cbn [fst snd] in *. lia.
  - specialize (Hb (length (completion_order env))).
    rewrite firstn_all in Hb. lia.
Qed.

(** C6: for an empty record sequence [batch_write_items] returns [(0, 0)] and
    submits no batch, whatever the store and the pool would do. *)
Theorem batch_write_items_empty (env : pool_env) :
  batch_write_items env (@nil (value float)) = (0, 0)
  /\ submitted_batches env (@nil (value float)) = []
  /\ split_batches batch_size (@nil (value float)) = [].
Proof. repeat split. Qed.

(** The tally when nothing fails in the pool: the sum of what every batch
    reports. *)
Lemma batch_write_items_total (env : pool_env) (items : list (value float)) :
  items <> [] ->
  submit_raises env (split_batches batch_size items) = None ->
  collect_fault env = None ->
  Permutation (completion_order env) (seq 0 (length (split_batches batch_size items))) ->
  let outcomes :=
    map (@contribution float) (submit_all env 0 (split_batches batch_size items)) in
  batch_write_items env items = (zsum (map fst outcomes), zsum (map snd outcomes)).
Proof.
  intros Hne Hsub Hcol Hperm outcomes.
  unfold batch_write_items, batch_write_items_run.
  assert (Hnb : (0 < length (split_batches batch_size items))%nat).
  { rewrite split_batches_length.
    destruct (ceil_div_spec (length items) (b := batch_size) ltac:(unfold batch_size; lia))
      as [Hc _].
    destruct items; [congruence|]. simpl in Hc.
    destruct (ceil_div (S (length items)) batch_size); simpl in *; lia. }
  destruct (Nat.eqb_spec (Nat.min 10 (length (split_batches batch_size items))) 0); [lia|].
  rewrite Hsub. cbn [fst].
  apply collect_results_total; [assumption|].
  now rewrite submit_all_length.
Qed.

(** C2: a batch that is throttled at every attempt is tried exactly
    [max_retries] times, the first try included, with a backoff delay between
    two tries and none after the last; it then returns the counters of its
    last attempt.  With the default of 5 the engine adds exactly these
    counters to the tally, which is the sum of what all batches report. *)
Theorem always_throttled_batch_is_abandoned (env : pool_env) (items : list (value float))
    (i : nat) (batch : list (value float)) (n : nat) :
  nth_error (split_batches batch_size items) i = Some batch ->
  (forall attempt,
      bulk_write_raises (store env i attempt) batch = Some (ClientError THROTTLED)) ->
  submit_raises env (split_batches batch_size items) = None ->
  collect_fault env = None ->
  Permutation (completion_order env) (seq 0 (length (split_batches batch_size items))) ->
  let last_counts := fun k =>
    (local_success (attempt_counts (store env i k) batch),
     local_errors (attempt_counts (store env i k) batch)) in
  (let max_retries := S n in
   let run := process_batch_with_retry_log (store env i) (uniform env i) batch max_retries in
   attempts_of (snd run) = seq 0 max_retries
   /\ sleeps_of (snd run) = map (fun k => wait_time k (uniform env i k)) (seq 0 (max_retries - 1))
   /\ fst run = Returned (last_counts (max_retries - 1)%nat))
  /\ default_max_retries = 5%nat
  /\ (let outcomes :=
        map (@contribution float) (submit_all env 0 (split_batches batch_size items)) in
      nth_error outcomes i = Some (last_counts 4%nat)
      /\ batch_write_items env items = (zsum (map fst outcomes), zsum (map snd outcomes))).
Proof.
  intros Hnth Hthr Hsub Hcol Hperm last_counts.
  split; [|split; [reflexivity|split]].
  - cbv zeta. replace (S n - 1)%nat with n by lia.
    destruct (retry_loop_always_throttled (store env i) (uniform env i) batch Hthr
                (max_retries := S n) n 0 eq_refl) as (Hr & Hat & Hsl).
    unfold process_batch_with_retry_log. auto.
  - rewrite nth_error_map, (submit_all_nth env _ 0 i Hnth). cbn [option_map].
    unfold future_of, contribution, process_batch_with_retry, process_batch_with_retry_log,
      default_max_retries.
    destruct (retry_loop_always_throttled (store env i) (uniform env i) batch Hthr
                (max_retries := 5) 4 0 eq_refl) as (Hr & _).
    cbv zeta in Hr. rewrite !Nat.add_0_l in *. rewrite Hr. reflexivity.
  - apply batch_write_items_total; try assumption.
    intros ->. destruct i; discriminate.
Qed.

(** C3: when the attempts up to [a] are throttled and retries remain after
    [a], the worker sleeps [2^a + jitter] seconds after attempt [a] and goes on
    with fresh counters: what it returns is what the remaining attempts return
    from zero, whatever the counters of attempt [a] were, and the next attempt
    starts again at the first item of the batch.  The delay is the double
    nearest to the exact sum: with the jitter in [0,1) it is within
    [2^(k-53)] of [2^k + jitter], it lies between [2^k] and [2^(k+1)], and no
    delay exceeds the next one ([2^k] staying in the range of a double). *)
Theorem throttled_attempt_backs_off (store : nat -> bulk_attempt) (uniform : nat -> Q)
    (max_retries : nat) (batch : list (value float)) (a : nat) :
  (forall k, (k <= a)%nat ->
             bulk_write_raises (store k) batch = Some (ClientError THROTTLED)) ->
  Z.of_nat a < Z.of_nat max_retries - 1 ->
  (forall k, (0 <= uniform k)%Q /\ (uniform k < 1)%Q) ->
  let retry :=
    retry_loop store uniform max_retries batch (seq (S a) (max_retries - S a))
      zero_counters in
  (exists log,
      process_batch_with_retry_log store uniform batch max_retries
      = (fst retry, log ++ snd retry)
      /\ attempts_of log = seq 0 (S a)
      /\ sleeps_of log = map (fun k => wait_time k (uniform k)) (seq 0 (S a)))
  /\ (forall rest c,
        retry_loop store uniform max_retries batch (a :: rest) c
        = (fst (retry_loop store uniform max_retries batch rest zero_counters),
           snd (fst (bulk_write (store a) a batch c))
           ++ EvSleep (wait_time a (uniform a))
           :: snd (retry_loop store uniform max_retries batch rest zero_counters)))
  /\ (forall first others, batch = first :: others ->
        exists tail, snd retry = EvBulkWrite (S a) :: EvPut first :: tail)
  /\ ((1 <= wait_time 0 (uniform 0%nat))%Q /\ (wait_time 0 (uniform 0%nat) <= 2)%Q)
  /\ (forall k, (S k < 1024)%nat ->
        wait_time k (uniform k) = binary64 (inject_Z (2 ^ Z.of_nat k) + uniform k)
        /\ (wait_time k (uniform k) - 2 ^ (Z.of_nat k - 53)
            <= inject_Z (2 ^ Z.of_nat k) + uniform k)%Q
        /\ (inject_Z (2 ^ Z.of_nat k) + uniform k
            <= wait_time k (uniform k) + 2 ^ (Z.of_nat k - 53))%Q
        /\ (inject_Z (2 ^ Z.of_nat k) <= wait_time k (uniform k))%Q
        /\ (wait_time k (uniform k) <= inject_Z (2 ^ (Z.of_nat k + 1)))%Q
        /\ (wait_time k (uniform k) <= wait_time (S k) (uniform (S k)))%Q).
Proof.
  intros Hthr Hlt Hu retry.
  split; [|split; [|split; [|split]]].
  2: { intros rest c. apply retry_loop_throttled_retry; [apply Hthr; lia|assumption]. }
  - unfold process_batch_with_retry_log.
    assert (Hseq : seq 0 max_retries = seq 0 (S a) ++ seq (S a) (max_retries - S a)).
    { change (seq (S a) (max_retries - S a)) with (seq (0 + S a) (max_retries - S a)).
      rewrite <- seq_app. f_equal. lia. }
    rewrite Hseq.
    apply (@retry_loop_after_throttles float store uniform max_retries batch (S a) 0);
      [intros; apply Hthr; lia|lia].
  - intros first others Hb. subst retry.
    replace (max_retries - S a)%nat with (S (max_retries - S a - 1)) by lia.
    cbn [seq]. eapply retry_loop_first_events; eassumption.
  - destruct (Hu 0%nat) as [H0 H1].
    exact (wait_time_range 0 H0 H1).
  - intros k _. destruct (Hu k) as [H0 H1]. destruct (Hu (S k)) as [H0' H1'].
    destruct (wait_time_range k H0 H1) as [Hlow Hup].
    destruct (wait_time_nearest k H0 H1) as [Hn1 Hn2].
    split; [reflexivity|]. split; [exact Hn1|]. split; [exact Hn2|].
    split; [exact Hlow|]. split; [exact Hup|].
    apply wait_time_nondecreasing; assumption.
Qed.

(** What the handler of a bulk failure other than the throttling signal
    returns: the batch ends at once, after the throttled attempts that came
    before, with success 0 and an error count of the batch length plus the
    item errors already counted in that attempt; that is the batch length
    when no item of that attempt had failed on its own. *)
Theorem bulk_failure_aborts_batch (store : nat -> bulk_attempt) (uniform : nat -> Q)
    (max_retries : nat) (batch : list (value float)) (a : nat) (code : string) :
  (a < max_retries)%nat ->
  (forall k, (k < a)%nat ->
             bulk_write_raises (store k) batch = Some (ClientError THROTTLED)) ->
  bulk_write_raises (store a) batch = Some (ClientError code) ->
  String.eqb code THROTTLED = false ->
  let run := process_batch_with_retry_log store uniform batch max_retries in
  let item_errors := local_errors (attempt_counts (store a) batch) in
  fst run = Returned (0, item_errors + Z.of_nat (length batch))
  /\ (attempts_of (snd run) = seq 0 (S a)
      /\ sleeps_of (snd run) = map (fun k => wait_time k (uniform k)) (seq 0 a))
  /\ 0 <= item_errors <= Z.of_nat (length batch)
  /\ (item_errors = 0 -> fst run = Returned (0, Z.of_nat (length batch))).
Proof.
  intros Ha Hthr Hfail Hcode run item_errors.
  assert (Hrun : fst run = Returned (0, item_errors + Z.of_nat (length batch))
                 /\ (attempts_of (snd run) = seq 0 (S a)
                     /\ sleeps_of (snd run)
                        = map (fun k => wait_time k (uniform k)) (seq 0 a))).
  { subst run item_errors. unfold process_batch_with_retry_log.
    assert (Hseq : seq 0 max_retries = seq 0 a ++ a :: seq (S a) (max_retries - S a)).
    { change (a :: seq (S a) (max_retries - S a)) with (seq (0 + a) (S (max_retries - S a))).
      rewrite <- seq_app. f_equal. lia. }
    rewrite Hseq.
    destruct (@retry_loop_after_throttles float store uniform max_retries batch a 0
                (a :: seq (S a) (max_retries - S a)))
      as (log & Heq & Hat & Hsl); [intros; apply Hthr; lia|lia|].
    rewrite Heq, (retry_loop_bulk_failure _ _ _ _ _ _ _ Hfail Hcode).
    cbn [fst snd]. unfold attempt_counts.
    rewrite bulk_write_attempt_irrelevant. split; [reflexivity|].
    rewrite attempts_of_app, sleeps_of_app, Hat, Hsl, seq_S.
    destruct (bulk_write_log (store a) a batch zero_counters) as [Hl Hs].
    rewrite Hl, Hs, app_nil_r. split; reflexivity. }
  destruct Hrun as [Hr Hl]. split; [exact Hr|]. split; [exact Hl|].
  pose proof (bulk_write_total (store a) 0 batch zero_counters) as Ht.
  fold (attempt_counts (store a) batch) in Ht. cbv zeta in Ht. simpl in Ht.
  fold item_errors in Ht.
  split; [lia|].
  intros H0. rewrite Hr, H0. reflexivity.
Qed.

End EngineClaims.

(** ** Purge *)

Section PurgeFacts.

Variable float : Type.

Abbreviation row := (list (string * value float)).

Lemma scan_pages_all (session : scan_session float) :
  scan_fault session = None ->
  forall start items,
    scan_pages session start items =
    (Returned (items ++ session_items session), start :: map Some (session_keys session)).
Proof.
  induction session as [e|[rows|]|[rows|] key next IH]; intros Hok start items;
    simpl in *.
  - discriminate.
  - reflexivity.
  - reflexivity.
  - rewrite (IH Hok), <- app_assoc. reflexivity.
  - rewrite (IH Hok), app_nil_r. reflexivity.
Qed.

Lemma scan_pages_fault (session : scan_session float) (e : exn) :
  scan_fault session = Some e ->
  forall start items, fst (scan_pages session start items) = Raised e.
Proof.
  induction session as [e'|page|page key next IH]; intros Hf start items; simpl in *.
  - now injection Hf as ->.
  - discriminate.
  - specialize (IH Hf (Some key) (items ++ get_Items page)).
    destruct (scan_pages next (Some key) (items ++ get_Items page)). exact IH.
Qed.




End PurgeFacts.

(** ** One table *)

Section TableFacts.

Variable float : Type.
Variable str : float -> string.

(** [batch_write_items] always returns, so does the purge: what can leave
    [populate_table] as an exception comes from the existence check, the
    creation or the file load. *)
Lemma populate_table_raises_only_from (w : world float) (filename : string)
    (config : table_config) (global_action : option string) (e : exn) :
  populate_table str w filename config global_action = Raised e ->
  table_exists w (table_name config) = Raised e
  \/ create_table w (table_name config) (pk config) (sk config) = Raised e
  \/ load_json_file str w filename = Raised e.
Proof.
  assert (Hload : load_and_write str w filename = Raised e ->
                  load_json_file str w filename = Raised e).
  { unfold load_and_write.
    destruct (load_json_file str w filename) as [[[| | | | | |[|x l]|]|]|e'];
      try discriminate; [|congruence].
    destruct (batch_write_items (pool w) (x :: l)); discriminate. }
  unfold populate_table.
  destruct (table_exists w (table_name config)) as [[|]|e1]; [| |left; congruence].
  - destruct global_action as [action|]; [|auto].
    destruct (String.eqb action "replace"); [|auto].
    destruct (scan_limit_1 w) as [Count|]; [|auto].
    destruct (_ >? 0); [|auto].
    destruct (negb _); [discriminate|auto].
  - destruct (create_table w (table_name config) (pk config) (sk config))
      as [[|]|e2]; [auto|discriminate|right; left; congruence].
Qed.

Lemma table_exists_raises (w : world float) (name : string) (e : exn) :
  table_exists w name = Raised e <->
  describe_table_raises w name = Some e /\ e <> ClientError NOT_FOUND.
Proof.
  unfold table_exists.
  destruct (describe_table_raises w name) as [[code| | | | |]|]; split;
    try (intros H; injection H as <-; split; [reflexivity|discriminate]);
    try (intros [H _]; injection H as <-; reflexivity);
    try discriminate; try (intros [H _]; discriminate H).
  - destruct (String.eqb_spec code NOT_FOUND) as [->|Hne]; [discriminate|].
    intros H; injection H as <-. split; [reflexivity|congruence].
  - intros [H Hne]. injection H as <-.
    destruct (String.eqb_spec code NOT_FOUND) as [->|_]; [congruence|reflexivity].
Qed.

Lemma create_table_raises_not_client (w : world float) (name pk_name : string)
    (sk_name : option string) (e : exn) :
  create_table w name pk_name sk_name = Raised e ->
  ((exists request, create_table_raises w request = Some e)
   \/ wait_until_exists_raises w = Some e)
  /\ forall code, e <> ClientError code.
Proof.
  unfold create_table.
  destruct (match sk_name with
            | Some s => if truthy sk_name then _ else _
            | None => _
            end) as [key_schema attribute_definitions].
  match goal with
  | |- context [create_table_raises w ?r] =>
      destruct (create_table_raises w r) as [[code| | | | |]|] eqn:Hcr
  end;
    try discriminate;
    try (intros H; injection H as <-; split; [left; eexists; exact Hcr|discriminate]).
  destruct (wait_until_exists_raises w) as [[code| | | | |]|];
    try discriminate;
    intros H; injection H as <-; (split; [now right|discriminate]).
Qed.

Lemma load_json_file_raises (w : world float) (filename : string) (e : exn) :
  load_json_file str w filename = Raised e <->
  json_load w filename = Raised e /\ e <> FileNotFoundError /\ e <> JSONDecodeError.
Proof.
  unfold load_json_file.
  destruct (json_load w filename) as [data|[code| | | | |]]; split;
    try discriminate;
    try (intros H; injection H as <-; repeat split; discriminate);
    try (intros (H & _ & _); discriminate H);
    try (intros (H & _ & _); injection H as <-; reflexivity);
    try (intros (H & H1 & H2); injection H as <-; congruence).
Qed.

Lemma load_and_write_raises (w : world float) (filename : string) (e : exn) :
  json_load w filename = Raised e -> e <> FileNotFoundError -> e <> JSONDecodeError ->
  load_and_write str w filename = Raised e.
Proof.
  intros Hj H1 H2. unfold load_and_write.
  now rewrite (proj2 (load_json_file_raises w filename e) (conj Hj (conj H1 H2))).
Qed.

(** C5, as the code has it: [populate_table] turns into a boolean every fault
    of the emptiness probe, of the purge and of the batch writing, "table not
    found" at the existence check, a [ClientError] at the creation or while
    waiting for the table, and a missing or undecodable file.  It raises in
    three cases only: the existence check raises anything else; the creation
    of a missing table, or the wait for it, raises something that is not a
    [ClientError]; the file load, once the table step is passed, raises
    anything but a missing file or a decoding error. *)
Theorem populate_table_returns_boolean (w : world float) (filename : string)
    (config : table_config) (global_action : option string) :
  let run := populate_table str w filename config global_action in
  ((forall e, describe_table_raises w (table_name config) = Some e ->
              e = ClientError NOT_FOUND) ->
   (forall request e, create_table_raises w request = Some e ->
                      exists code, e = ClientError code) ->
   (forall e, wait_until_exists_raises w = Some e -> exists code, e = ClientError code) ->
   (forall e, json_load w filename = Raised e ->
              e = FileNotFoundError \/ e = JSONDecodeError) ->
   exists b : bool, run = Returned b)
  /\ (forall e, describe_table_raises w (table_name config) = Some e ->
                e <> ClientError NOT_FOUND -> run = Raised e)
  /\ (describe_table_raises w (table_name config) = Some (ClientError NOT_FOUND) ->
      forall e, (forall code, e <> ClientError code) ->
        (forall request, create_table_raises w request = Some e)
        \/ ((forall request, create_table_raises w request = None)
            /\ wait_until_exists_raises w = Some e) ->
        run = Raised e)
  /\ (forall e, json_load w filename = Raised e ->
        e <> FileNotFoundError -> e <> JSONDecodeError ->
        (describe_table_raises w (table_name config) = None
         /\ (global_action = Some "replace" ->
             forall n, scan_limit_1 w = Returned (Some n) -> 0 < n ->
                       delete_all_items_from_table (purge w) (pk config) (sk config) = true))
        \/ (describe_table_raises w (table_name config) = Some (ClientError NOT_FOUND)
            /\ (forall request, create_table_raises w request = None)
            /\ wait_until_exists_raises w = None) ->
        run = Raised e)
  /\ (forall e, run = Raised e ->
        (describe_table_raises w (table_name config) = Some e
         /\ e <> ClientError NOT_FOUND)
        \/ (((exists request, create_table_raises w request = Some e)
             \/ wait_until_exists_raises w = Some e)
            /\ forall code, e <> ClientError code)
        \/ (json_load w filename = Raised e
            /\ e <> FileNotFoundError /\ e <> JSONDecodeError)).
Proof.
  intros run.
  assert (Honly : forall e, run = Raised e ->
            (describe_table_raises w (table_name config) = Some e
             /\ e <> ClientError NOT_FOUND)
            \/ (((exists request, create_table_raises w request = Some e)
                 \/ wait_until_exists_raises w = Some e)
                /\ forall code, e <> ClientError code)
            \/ (json_load w filename = Raised e
                /\ e <> FileNotFoundError /\ e <> JSONDecodeError)).
  { intros e Hrun. subst run.
    apply populate_table_raises_only_from in Hrun as [Hx|[Hc|Hl]].
    - left. now apply table_exists_raises.
    - right; left. eapply create_table_raises_not_client; eassumption.
    - right; right. now apply load_json_file_raises. }
  split; [|split; [|split; [|split; [|exact Honly]]]].
  - intros Hdescribe Hcreate Hwait Hload.
    destruct run as [b|e] eqn:Hrun; [now exists b|exfalso].
    destruct (Honly e eq_refl) as [[Hd Hne]|[[[[request Hc]|Hw] Hne]|(Hj & H1 & H2)]].
    + apply Hne, Hdescribe, Hd.
    + destruct (Hcreate _ _ Hc) as (code & ->). exact (Hne code eq_refl).
    + destruct (Hwait _ Hw) as (code & ->). exact (Hne code eq_refl).
    + destruct (Hload _ Hj); contradiction.
  - intros e Hd Hne. subst run. unfold populate_table.
    now rewrite (proj2 (table_exists_raises w (table_name config) e) (conj Hd Hne)).
  - intros Hd e Hne Hfail. subst run. unfold populate_table, table_exists.
    rewrite Hd. change (String.eqb NOT_FOUND NOT_FOUND) with true. cbv iota.
    unfold create_table.
    destruct (match sk config with
              | Some s => if truthy (sk config) then _ else _
              | None => _
              end) as [key_schema attribute_definitions].
    destruct Hfail as [Hc|[Hc Hw]]; rewrite Hc; [|rewrite Hw];
      (destruct e as [code| | | | |]; [exfalso; exact (Hne code eq_refl)|..]; reflexivity).
  - intros e Hj H1 H2 Hreach. subst run.
    pose proof (load_and_write_raises w filename Hj H1 H2) as Hload.
    unfold populate_table, table_exists.
    destruct Hreach as [[Hd Hpurge]|(Hd & Hc & Hw)]; rewrite Hd.
    + destruct global_action as [action|]; [|exact Hload].
      destruct (String.eqb_spec action "replace") as [->|_]; [|exact Hload].
      destruct (scan_limit_1 w) as [[n|]|] eqn:Hprobe; try exact Hload.
      destruct (Z.gtb_spec n 0) as [Hpos|_]; [|exact Hload].
      rewrite (Hpurge eq_refl n eq_refl ltac:(lia)). exact Hload.
    + change (String.eqb NOT_FOUND NOT_FOUND) with true. cbv iota.
      unfold create_table.
      destruct (match sk config with
                | Some s => if truthy (sk config) then _ else _
                | None => _
                end) as [key_schema attribute_definitions].
      rewrite Hc, Hw. exact Hload.
Qed.

End TableFacts.

(** * Worked runs *)

(** C1 on a concrete run: 25 records make one batch; the store throttles the
    bulk write at the 25th item on each of the five attempts.  The engine
    returns [(24, 0)]: the sum is 24 for 25 records, and no record is counted
    as an error.  When the store throttles on leaving the bulk write instead,
    the engine returns [(25, 0)]: the records of the abandoned batch are all
    counted as successes. *)
Theorem throttled_out_batch_is_left_out_of_the_tally :
  Z.of_nat (length records_25) = 25
  /\ split_batches batch_size records_25 = [records_25]
  /\ (forall attempt,
        bulk_write_raises (store throttled_pool 0 attempt) records_25
        = Some (ClientError THROTTLED))
  /\ batch_write_items throttled_pool records_25 = (24, 0)
  /\ fst (batch_write_items throttled_pool records_25)
     + snd (batch_write_items throttled_pool records_25)
     <> Z.of_nat (length records_25)
  /\ (forall attempt,
        bulk_write_raises (store flush_throttled_pool 0 attempt) records_25
        = Some (ClientError THROTTLED))
  /\ batch_write_items flush_throttled_pool records_25 = (25, 0).
Proof.
  split; [reflexivity|]. split; [reflexivity|]. split; [intros; reflexivity|].
  split; [vm_compute; reflexivity|].
  split; [vm_compute; discriminate|].
  split; [intros; reflexivity|].
  vm_compute; reflexivity.
Qed.


(** C5 as stated fails: when [describe_table] is refused for a reason other
    than a missing table, [table_exists] raises again and the exception leaves
    [populate_table]; so does what the waiter raises after a creation, and what
    the file load raises besides a missing file or a decoding error. *)
Lemma populate_table_lets_the_existence_check_escape :
  (populate_table example_str denied_world "productos.json" productos_config (Some "append")
   = Raised (ClientError "AccessDeniedException")
   /\ ~ exists b : bool,
          populate_table example_str denied_world "productos.json" productos_config
            (Some "append") = Returned b)
  /\ populate_table example_str waiter_fails_world "productos.json" productos_config
       (Some "append") = Raised OtherException
  /\ populate_table example_str unreadable_world "productos.json" productos_config
       (Some "append") = Raised OtherException.
Proof.
  split; [split; [reflexivity|]|split; reflexivity].
  intros [b Hb]. vm_compute in Hb. discriminate.
Qed.

Lemma split_batches_partition_witness :
  nth_error (split_batches batch_size records_25) 0 = Some records_25
  /\ (1 <= length records_25 <= 25)%nat.
Proof.
  assert (H : nth_error (split_batches batch_size records_25) 0 = Some records_25)
    by reflexivity.
  split; [exact H|].
  destruct (@split_batches_partition (value Q) records_25) as (_ & _ & _ & Hbatch).
  exact (proj1 (Hbatch 0%nat records_25 H)).
Defined.

Lemma batch_write_items_counts_in_range_witness :
  Permutation (completion_order throttled_pool)
    (seq 0 (length (split_batches batch_size records_25)))
  /\ 0 <= fst (batch_write_items throttled_pool records_25) <= Z.of_nat (length records_25)
  /\ 0 <= snd (batch_write_items throttled_pool records_25).
Proof.
  assert (H : Permutation (completion_order throttled_pool)
                (seq 0 (length (split_batches batch_size records_25))))
    by (vm_compute; apply Permutation_refl).
  split; [exact H|].
  exact (proj1 (@batch_write_items_counts_in_range Q throttled_pool records_25 H)).
Defined.

Lemma always_throttled_batch_is_abandoned_witness :
  (forall attempt,
      bulk_write_raises (store throttled_pool 0 attempt) records_25
      = Some (ClientError THROTTLED))
  /\ attempts_of (snd (process_batch_with_retry_log (store throttled_pool 0)
                         (uniform throttled_pool 0) records_25 5))
     = [0; 1; 2; 3; 4]%nat
  /\ length (sleeps_of (snd (process_batch_with_retry_log (store throttled_pool 0)
                               (uniform throttled_pool 0) records_25 5))) = 4%nat
  /\ fst (process_batch_with_retry_log (store throttled_pool 0)
            (uniform throttled_pool 0) records_25 5) = Returned (24, 0)
  /\ batch_write_items throttled_pool records_25 = (24, 0).
Proof.
  assert (Hthr : forall attempt,
             bulk_write_raises (store throttled_pool 0 attempt) records_25
             = Some (ClientError THROTTLED)) by (intros; reflexivity).
  assert (Hperm : Permutation (completion_order throttled_pool)
                    (seq 0 (length (split_batches batch_size records_25))))
    by (vm_compute; apply Permutation_refl).
  destruct (@always_throttled_batch_is_abandoned Q throttled_pool records_25 0%nat
              records_25 4%nat eq_refl Hthr eq_refl eq_refl Hperm)
    as ((Hat & Hsl & Hr) & _ & (_ & Htally)).
  split; [exact Hthr|]. split; [exact Hat|].
  split; [rewrite Hsl; reflexivity|].
  split; [exact Hr|exact Htally].
Defined.

Lemma throttled_attempt_backs_off_witness :
  (forall k, (k <= 0)%nat ->
             bulk_write_raises (throttle_at 0) one_record = Some (ClientError THROTTLED))
  /\ (forall k : nat, (0 <= half)%Q /\ (half < 1)%Q)
  /\ (exists log,
        process_batch_with_retry_log (fun _ => throttle_at 0) (fun _ => half) one_record 5
        = (fst (retry_loop (fun _ => throttle_at 0) (fun _ => half) 5 one_record
                  [1; 2; 3; 4]%nat zero_counters),
           log ++ snd (retry_loop (fun _ => throttle_at 0) (fun _ => half) 5 one_record
                         [1; 2; 3; 4]%nat zero_counters))
        /\ attempts_of log = [0%nat]
        /\ sleeps_of log = [wait_time 0 half])
  /\ (wait_time 0 half <= wait_time 1 half)%Q.
Proof.
  assert (Hthr : forall k, (k <= 0)%nat ->
             bulk_write_raises (throttle_at 0) one_record = Some (ClientError THROTTLED))
    by (intros; reflexivity).
  assert (Hu : forall k : nat, (0 <= half)%Q /\ (half < 1)%Q)
    by (intros; split; [discriminate|reflexivity]).
  destruct (@throttled_attempt_backs_off Q (fun _ => throttle_at 0) (fun _ => half)
              5%nat one_record 0%nat Hthr eq_refl Hu)
    as (Hlog & _ & _ & _ & Hdelay).
  split; [exact Hthr|]. split; [exact Hu|]. split; [exact Hlog|].
  assert (Hrange : (1 < 1024)%nat) by lia.
  exact (proj2 (proj2 (proj2 (proj2 (proj2 (Hdelay 0%nat Hrange)))))).
Defined.

Lemma bulk_failure_aborts_batch_witness :
  (0 < 5)%nat
  /\ bulk_write_raises reject_then_fail one_record = Some (ClientError "ValidationException")
  /\ fst (process_batch_with_retry_log (fun _ => reject_then_fail) (fun _ => half)
            one_record 5)
     = Returned (0, 1 + Z.of_nat (length one_record))
  /\ attempts_of (snd (process_batch_with_retry_log (fun _ => reject_then_fail)
                         (fun _ => half) one_record 5)) = [0%nat].
Proof.
  assert (Hlt : (0 < 5)%nat) by lia.
  assert (Hthr : forall k, (k < 0)%nat ->
             bulk_write_raises reject_then_fail one_record = Some (ClientError THROTTLED))
    by (intros k Hk; lia).
  destruct (@bulk_failure_aborts_batch Q (fun _ => reject_then_fail) (fun _ => half)
              5%nat one_record 0%nat "ValidationException"
              Hlt Hthr eq_refl eq_refl) as (Hr & (Hat & _) & _).
  split; [exact Hlt|]. split; [reflexivity|]. split; [exact Hr|exact Hat].
Defined.


Lemma populate_table_returns_boolean_witness :
  (forall e, describe_table_raises refused_world (table_name productos_config) = Some e ->
             e = ClientError NOT_FOUND)
  /\ (forall request e, create_table_raises refused_world request = Some e ->
                        exists code, e = ClientError code)
  /\ (forall e, wait_until_exists_raises refused_world = Some e ->
                exists code, e = ClientError code)
  /\ (forall e, json_load refused_world "productos.json" = Raised e ->
                e = FileNotFoundError \/ e = JSONDecodeError)
  /\ (exists b : bool,
        populate_table example_str refused_world "productos.json" productos_config
          (Some "replace") = Returned b)
  /\ (exists b : bool,
        populate_table example_str purge_refused_world "productos.json" productos_config
          (Some "replace") = Returned b)
  /\ (exists b : bool,
        populate_table example_str failing_writes_world "productos.json" productos_config
          (Some "replace") = Returned b)
  /\ populate_table example_str failing_writes_world "productos.json" productos_config
       (Some "replace") = Returned false
  /\ populate_table example_str denied_world "productos.json" productos_config
       (Some "replace") = Raised (ClientError "AccessDeniedException")
  /\ populate_table example_str waiter_fails_world "productos.json" productos_config
       (Some "replace") = Raised OtherException
  /\ populate_table example_str unreadable_world "productos.json" productos_config
       (Some "replace") = Raised OtherException.
Proof.
  assert (H1 : forall e,
             describe_table_raises refused_world (table_name productos_config) = Some e ->
             e = ClientError NOT_FOUND)
    by (intros e H; injection H as <-; reflexivity).
  assert (H2 : forall request e, create_table_raises refused_world request = Some e ->
                                 exists code, e = ClientError code)
    by (intros request e H; injection H as <-; eexists; reflexivity).
  assert (H3 : forall e, wait_until_exists_raises refused_world = Some e ->
                         exists code, e = ClientError code)
    by (intros e H; injection H as <-; eexists; reflexivity).
  assert (H4 : forall e, json_load refused_world "productos.json" = Raised e ->
                         e = FileNotFoundError \/ e = JSONDecodeError)
    by (intros e H; injection H as <-; now left).
  split; [exact H1|]. split; [exact H2|]. split; [exact H3|]. split; [exact H4|].
  split.
  { exact (proj1 (@populate_table_returns_boolean Q example_str refused_world
                    "productos.json" productos_config (Some "replace")) H1 H2 H3 H4). }
  split.
  { apply (proj1 (@populate_table_returns_boolean Q example_str purge_refused_world
                    "productos.json" productos_config (Some "replace")));
      [intros e H|intros request e H|intros e H|intros e H]; discriminate H. }
  split.
  { apply (proj1 (@populate_table_returns_boolean Q example_str failing_writes_world
                    "productos.json" productos_config (Some "replace")));
      [intros e H|intros request e H|intros e H|intros e H]; discriminate H. }
  split; [reflexivity|].
  split.
  { apply (proj1 (proj2 (@populate_table_returns_boolean Q example_str denied_world
                           "productos.json" productos_config (Some "replace"))));
      [reflexivity|discriminate]. }
  split.
  { apply (proj1 (proj2 (proj2 (@populate_table_returns_boolean Q example_str
                                  waiter_fails_world "productos.json" productos_config
                                  (Some "replace")))));
      [reflexivity|discriminate|].
    right. split; [intros; reflexivity|reflexivity]. }
  apply (proj1 (proj2 (proj2 (proj2 (@populate_table_returns_boolean Q example_str
                                       unreadable_world "productos.json" productos_config
                                       (Some "replace"))))));
    [reflexivity|discriminate|discriminate|].
  left. split; [reflexivity|].
  intros _ n _ _. reflexivity.
Defined.

(** * Further properties of the code *)

(** ** Re-encoding and record structure *)

Section MoreValueFacts.

Variable float : Type.
Variable str : float -> string.

(** X1: a value without floats is returned as it is, and converting twice is
    converting once. *)
Theorem convert_float_to_decimal_stable (obj : value float) :
  (has_float obj = false -> convert_float_to_decimal str obj = obj)
  /\ convert_float_to_decimal str (convert_float_to_decimal str obj)
     = convert_float_to_decimal str obj.
Proof.
  split; [apply convert_float_free|].
  apply convert_float_free, convert_has_no_float.
Qed.

Lemma dict_get_convert (d : list (string * value float)) (key : string) :
  dict_get (map (fun '(k, v) => (k, convert_float_to_decimal str v)) d) key
  = option_map (convert_float_to_decimal str) (dict_get d key).
Proof.
  induction d as [|[k v] d IH]; simpl; [reflexivity|].
  destruct (String.eqb k key); [reflexivity|exact IH].
Qed.

(** X2: a converted record has the fields of the record, in the same order, and
    looking a field up in it gives the converted value of that field; a
    converted list has the same length and its element at each index is the
    converted element. *)
Theorem convert_float_to_decimal_keeps_fields
    (d : list (string * value float)) (l : list (value float)) :
  (exists d',
      convert_float_to_decimal str (VDict d) = VDict d'
      /\ map fst d' = map fst d
      /\ forall key, dict_get d' key
                     = option_map (convert_float_to_decimal str) (dict_get d key))
  /\ (exists l',
        convert_float_to_decimal str (VList l) = VList l'
        /\ length l' = length l
        /\ forall i, nth_error l' i
                     = option_map (convert_float_to_decimal str) (nth_error l i)).
Proof.
  split.
  - eexists. split; [reflexivity|]. split; [|apply dict_get_convert].
    rewrite map_map. apply map_ext. intros [k v]; reflexivity.
  - eexists. split; [reflexivity|]. split; [apply length_map|].
    intros i. apply nth_error_map.
Qed.

End MoreValueFacts.

(** ** Where a record goes *)

(** X3: the record at index [k] is the one at position [k mod 25] of the batch of
    index [k / 25]. *)
Theorem split_batches_locates_record (A : Type) (items : list A) (k : nat) (x : A) :
  nth_error items k = Some x ->
  exists batch,
    nth_error (split_batches batch_size items) (k / 25) = Some batch
    /\ nth_error batch (k mod 25) = Some x.
Proof.
  intros Hk.
  assert (Hlt : (k < length items)%nat) by (apply nth_error_Some; congruence).
  assert (Hb : (0 < batch_size)%nat) by (unfold batch_size; lia).
  destruct (ceil_div_spec (length items) Hb) as [Hup _].
  pose proof (Nat.div_mod_eq k 25) as Hdm.
  pose proof (Nat.mod_upper_bound k 25 ltac:(lia)) as Hmod.
  assert (Hi : (k / 25 < ceil_div (length items) batch_size)%nat).
  { unfold batch_size in *. nia. }
  exists (firstn batch_size (skipn (k / 25 * batch_size) items)).
  split; [apply split_batches_nth; exact Hi|].
  rewrite nth_error_firstn.
  destruct (Nat.ltb_spec (k mod 25) batch_size) as [_|Hge];
    [|unfold batch_size in Hge; lia].
  rewrite nth_error_skipn, <- Hk. f_equal. unfold batch_size. lia.
Qed.

(** ** One bulk-write attempt *)

Section AttemptFacts.

Variable float : Type.

Lemma puts_of_map (batch : list (value float)) :
  puts_of (map (@EvPut float) batch) = batch.
Proof. induction batch as [|it rest IH]; simpl; congruence. Qed.

Lemma count_accepted_step (script : bulk_attempt) (start n : nat) :
  count_accepted script start (S n)
  = (if accepted script start then 1 else 0) + count_accepted script (S start) n.
Proof.
  unfold count_accepted. cbn [seq filter].
  destruct (accepted script start); cbn [length]; lia.
Qed.

Lemma put_items_unthrottled (script : bulk_attempt) (batch : list (value float)) :
  forall pos c,
    (forall q, (pos <= q < pos + length batch)%nat ->
               put_item_raises script q <> Some (ClientError THROTTLED)) ->
    let r := put_items script pos batch c in
    snd r = None
    /\ snd (fst r) = map (@EvPut float) batch
    /\ local_success (fst (fst r))
       = local_success c + count_accepted script pos (length batch)
    /\ local_success (fst (fst r)) + local_errors (fst (fst r))
       = local_success c + local_errors c + Z.of_nat (length batch).
Proof.
  induction batch as [|it rest IH]; intros pos c Hq r; subst r.
  - cbn. unfold count_accepted. simpl. repeat split; lia.
  - cbn [put_items length]. rewrite count_accepted_step. unfold accepted at 1.
    assert (Hrest : forall q, (S pos <= q < S pos + length rest)%nat ->
                      put_item_raises script q <> Some (ClientError THROTTLED))
      by (intros q Hr; apply Hq; simpl; lia).
    pose proof (Hq pos ltac:(simpl; lia)) as Hpos.
    destruct (put_item_raises script pos) as [[code| | | | |]|];
      try (destruct (String.eqb_spec code THROTTLED) as [->|_]; [congruence|]);
      match goal with
      | |- context [put_items script (S pos) rest ?c1] =>
          specialize (IH (S pos) c1 Hrest);
          destruct (put_items script (S pos) rest c1) as [[c' log] raised]
      end;
      cbn [fst snd local_success local_errors map] in *;
      destruct IH as (-> & -> & H3 & H4);
      rewrite Nat2Z.inj_succ; repeat split; lia.
Qed.

Lemma put_items_throttled_at (script : bulk_attempt) (batch : list (value float)) :
  forall p pos c,
    (p < length batch)%nat ->
    put_item_raises script (pos + p) = Some (ClientError THROTTLED) ->
    (forall q, (pos <= q < pos + p)%nat ->
               put_item_raises script q <> Some (ClientError THROTTLED)) ->
    let r := put_items script pos batch c in
    snd r = Some (ClientError THROTTLED)
    /\ snd (fst r) = map (@EvPut float) (firstn (S p) batch)
    /\ local_success (fst (fst r)) = local_success c + count_accepted script pos p
    /\ local_success (fst (fst r)) + local_errors (fst (fst r))
       = local_success c + local_errors c + Z.of_nat p.
Proof.
  induction batch as [|it rest IH]; intros p pos c Hp Hthr Hq r; subst r;
    [simpl in Hp; lia|].
  destruct p as [|p].
  - rewrite Nat.add_0_r in Hthr. cbn [put_items]. rewrite Hthr.
    change (String.eqb THROTTLED THROTTLED) with true. cbv iota.
    unfold count_accepted. cbn. repeat split; lia.
  - cbn [put_items]. rewrite count_accepted_step. unfold accepted at 1.
    assert (Hrest : forall q, (S pos <= q < S pos + p)%nat ->
                      put_item_raises script q <> Some (ClientError THROTTLED))
      by (intros q Hr; apply Hq; lia).
    assert (Hthr' : put_item_raises script (S pos + p) = Some (ClientError THROTTLED))
      by (rewrite <- Hthr; f_equal; lia).
    pose proof (Hq pos ltac:(lia)) as Hpos.
    simpl in Hp.
    destruct (put_item_raises script pos) as [[code| | | | |]|];
      try (destruct (String.eqb_spec code THROTTLED) as [->|_]; [congruence|]);
      match goal with
      | |- context [put_items script (S pos) rest ?c1] =>
          specialize (IH p (S pos) c1 ltac:(lia) Hthr' Hrest);
          destruct (put_items script (S pos) rest c1) as [[c' log] raised]
      end;
      cbn [fst snd local_success local_errors map firstn] in *;
      destruct IH as (-> & -> & H3 & H4);
      rewrite Nat2Z.inj_succ; repeat split; lia.
Qed.

(** X4: when no [put_item] of an attempt raises the throttling signal, every item
    of the batch is put once, in order, whether or not earlier items failed;
    every item is counted once, as a success when its [put_item] returned and
    as an error otherwise; the attempt then raises what leaving the bulk
    write raises. *)
Theorem unthrottled_attempt_puts_every_item (script : bulk_attempt) (attempt : nat)
    (batch : list (value float)) :
  (forall pos, put_item_raises script pos <> Some (ClientError THROTTLED)) ->
  let r := bulk_write script attempt batch zero_counters in
  puts_of (snd (fst r)) = batch
  /\ local_success (fst (fst r)) = count_accepted script 0 (length batch)
  /\ local_success (fst (fst r)) + local_errors (fst (fst r)) = Z.of_nat (length batch)
  /\ snd r = exit_raises script.
Proof.
  intros Hno r. subst r. unfold bulk_write.
  pose proof (@put_items_unthrottled script batch 0%nat zero_counters
                (fun q _ => Hno q)) as H.
  cbv zeta in H.
  destruct (put_items script 0 batch zero_counters) as [[c log] raised].
  cbn [fst snd] in *. destruct H as (-> & -> & H3 & H4).
  cbn [puts_of]. rewrite puts_of_map. cbn [local_success local_errors zero_counters] in *.
  repeat split; try lia.
  destruct (exit_raises script); reflexivity.
Qed.

(** X5: when [put_item] raises the throttling signal at position [p], and not
    before, the attempt stops there: the items after [p] are not put, the [p]
    items before are each counted once, the throttled one is counted neither
    as a success nor as an error, and the signal leaves the bulk write unless
    leaving it raises something else. *)
Theorem throttled_put_stops_the_attempt (script : bulk_attempt) (attempt : nat)
    (batch : list (value float)) (p : nat) :
  (p < length batch)%nat ->
  put_item_raises script p = Some (ClientError THROTTLED) ->
  (forall q, (q < p)%nat -> put_item_raises script q <> Some (ClientError THROTTLED)) ->
  let r := bulk_write script attempt batch zero_counters in
  puts_of (snd (fst r)) = firstn (S p) batch
  /\ local_success (fst (fst r)) = count_accepted script 0 p
  /\ local_success (fst (fst r)) + local_errors (fst (fst r)) = Z.of_nat p
  /\ (exit_raises script = None -> snd r = Some (ClientError THROTTLED)).
Proof.
  intros Hp Hthr Hbefore r. subst r. unfold bulk_write.
  pose proof (@put_items_throttled_at script batch p 0%nat zero_counters Hp Hthr
                (fun q Hq => Hbefore q (proj2 Hq))) as H.
  cbv zeta in H.
  destruct (put_items script 0 batch zero_counters) as [[c log] raised].
  cbn [fst snd] in *. destruct H as (-> & -> & H3 & H4).
  cbn [puts_of]. rewrite puts_of_map. cbn [local_success local_errors zero_counters] in *.
  repeat split; try lia.
  intros ->. reflexivity.
Qed.

End AttemptFacts.

(** ** A worker from its first attempt to its return *)

Section MoreWorkerFacts.

Variable float : Type.
Variable store : nat -> bulk_attempt.
Variable uniform : nat -> Q.
Variable max_retries : nat.
Variable batch : list (value float).

Lemma bulk_write_complete (script : bulk_attempt) :
  bulk_write_raises script batch = None ->
  local_success (attempt_counts script batch) + local_errors (attempt_counts script batch)
  = Z.of_nat (length batch).
Proof.
  unfold bulk_write_raises, attempt_counts, bulk_write.
  destruct (put_items script 0 batch zero_counters) as [[c log] raised] eqn:Hput.
  cbn [fst snd]. intros Hnone.
  apply put_items_counts in Hput as (_ & _ & _ & Hsum).
  destruct (exit_raises script); [discriminate|]. subst raised.
  specialize (Hsum eq_refl). simpl in Hsum. lia.
Qed.

Lemma retry_loop_completes (attempt : nat) (rest : list nat) (c : counters) :
  bulk_write_raises (store attempt) batch = None ->
  retry_loop store uniform max_retries batch (attempt :: rest) c =
  (Returned (local_success (fst (fst (bulk_write (store attempt) attempt batch c))),
             local_errors (fst (fst (bulk_write (store attempt) attempt batch c)))),
   snd (fst (bulk_write (store attempt) attempt batch c))).
Proof.
  intros Hnone. cbn [retry_loop].
  rewrite <- (bulk_write_raised (store attempt) attempt batch c) in Hnone.
  destruct (bulk_write (store attempt) attempt batch c) as [[c' log] raised].
  simpl in Hnone. subst raised. reflexivity.
Qed.

Lemma worker_completes_at (a : nat) :
  (a < max_retries)%nat ->
  (forall k, (k < a)%nat ->
             bulk_write_raises (store k) batch = Some (ClientError THROTTLED)) ->
  bulk_write_raises (store a) batch = None ->
  let run := process_batch_with_retry_log store uniform batch max_retries in
  let counts := attempt_counts (store a) batch in
  fst run = Returned (local_success counts, local_errors counts)
  /\ local_success counts + local_errors counts = Z.of_nat (length batch)
  /\ attempts_of (snd run) = seq 0 (S a)
  /\ sleeps_of (snd run) = map (fun k => wait_time k (uniform k)) (seq 0 a).
Proof.
  intros Ha Hthr Hdone run counts. subst run counts.
  split; [|split; [apply bulk_write_complete; assumption|]].
  - unfold process_batch_with_retry_log.
    assert (Hseq : seq 0 max_retries = seq 0 a ++ a :: seq (S a) (max_retries - S a)).
    { change (a :: seq (S a) (max_retries - S a)) with (seq (0 + a) (S (max_retries - S a))).
      rewrite <- seq_app. f_equal. lia. }
    rewrite Hseq.
    destruct (@retry_loop_after_throttles float store uniform max_retries batch a 0
                (a :: seq (S a) (max_retries - S a)))
      as (log & Heq & _); [intros; apply Hthr; lia|lia|].
    rewrite Heq, retry_loop_completes by assumption.
    cbn [fst]. unfold attempt_counts. now rewrite bulk_write_attempt_irrelevant.
  - unfold process_batch_with_retry_log.
    assert (Hseq : seq 0 max_retries = seq 0 a ++ a :: seq (S a) (max_retries - S a)).
    { change (a :: seq (S a) (max_retries - S a)) with (seq (0 + a) (S (max_retries - S a))).
      rewrite <- seq_app. f_equal. lia. }
    rewrite Hseq.
    destruct (@retry_loop_after_throttles float store uniform max_retries batch a 0
                (a :: seq (S a) (max_retries - S a)))
      as (log & Heq & Hat & Hsl); [intros; apply Hthr; lia|lia|].
    rewrite Heq, retry_loop_completes by assumption.
    cbn [snd]. rewrite attempts_of_app, sleeps_of_app, Hat, Hsl, seq_S.
    destruct (bulk_write_log (store a) a batch zero_counters) as [Hl Hs].
    rewrite Hl, Hs, app_nil_r. split; reflexivity.
Qed.

(** X6: a worker whose attempt [a] completes, the attempts before it having been
    throttled, returns the counters of attempt [a] alone; they add up to the
    length of the batch.  It has then made [a + 1] attempts and slept [a]
    times. *)
Theorem completed_attempt_accounts_for_every_item (a : nat) :
  (a < max_retries)%nat ->
  (forall k, (k < a)%nat ->
             bulk_write_raises (store k) batch = Some (ClientError THROTTLED)) ->
  bulk_write_raises (store a) batch = None ->
  let run := process_batch_with_retry_log store uniform batch max_retries in
  let counts := attempt_counts (store a) batch in
  fst run = Returned (local_success counts, local_errors counts)
  /\ local_success counts + local_errors counts = Z.of_nat (length batch)
  /\ attempts_of (snd run) = seq 0 (S a)
  /\ sleeps_of (snd run) = map (fun k => wait_time k (uniform k)) (seq 0 a).
Proof. exact (worker_completes_at (a := a)). Qed.

Lemma put_items_raises_throttled (script : bulk_attempt) (items : list (value float)) :
  forall pos c e,
    snd (put_items script pos items c) = Some e -> e = ClientError THROTTLED.
Proof.
  induction items as [|it rest IH]; intros pos c e; [discriminate|].
  cbn [put_items].
  destruct (put_item_raises script pos) as [[code| | | | |]|];
    try (destruct (String.eqb_spec code THROTTLED) as [->|_];
         [cbn; intros H; injection H as <-; reflexivity|]);
    match goal with
    | |- context [put_items script (S pos) rest ?c1] =>
        specialize (IH (S pos) c1 e);
        destruct (put_items script (S pos) rest c1) as [[? ?] ?]; exact IH
    end.
Qed.

Lemma bulk_write_raises_source (script : bulk_attempt) (e : exn) :
  bulk_write_raises script batch = Some e ->
  exit_raises script = Some e \/ e = ClientError THROTTLED.
Proof.
  unfold bulk_write_raises, bulk_write.
  pose proof (put_items_raises_throttled script batch 0 zero_counters) as Hput.
  destruct (put_items script 0 batch zero_counters) as [[c log] raised].
  cbn [fst snd] in *.
  destruct (exit_raises script) as [e'|]; [intros H; injection H as ->; now left|].
  intros ->. right. now apply Hput.
Qed.

Lemma retry_loop_raises (attempts : list nat) :
  forall c e,
    fst (retry_loop store uniform max_retries batch attempts c) = Raised e ->
    exists a,
      In a attempts
      /\ bulk_write_raises (store a) batch = Some e
      /\ forall code, e <> ClientError code.
Proof.
  induction attempts as [|a rest IH]; intros c e; [discriminate|].
  cbn [retry_loop].
  pose proof (bulk_write_raised (store a) a batch c) as Hraised.
  destruct (bulk_write (store a) a batch c) as [[c' log] raised].
  cbn [snd] in Hraised. subst raised.
  destruct (bulk_write_raises (store a) batch) as [[code| | | | |]|] eqn:Hb;
    try (cbn [fst]; intros H; injection H as <-; exists a;
         split; [now left|split; [assumption|discriminate]]);
    [|cbn [fst]; discriminate].
  destruct (String.eqb code THROTTLED); [|cbn [fst]; discriminate].
  destruct (Z.of_nat a <? Z.of_nat max_retries - 1).
  - specialize (IH zero_counters e).
    destruct (retry_loop store uniform max_retries batch rest zero_counters) as [r log'].
    cbn [fst] in *. intros H. destruct (IH H) as (a' & Hin & Hrest).
    exists a'. split; [now right|assumption].
  - specialize (IH c' e).
    destruct (retry_loop store uniform max_retries batch rest c') as [r log'].
    cbn [fst] in *. intros H. destruct (IH H) as (a' & Hin & Hrest).
    exists a'. split; [now right|assumption].
Qed.

(** X7: a worker never lets a [ClientError] out: what it raises is an exception of
    another class, raised on leaving the bulk write of one of its attempts. *)
Theorem process_batch_with_retry_raises_no_client_error (e : exn) :
  process_batch_with_retry store uniform batch max_retries = Raised e ->
  (forall code, e <> ClientError code)
  /\ exists a, (a < max_retries)%nat /\ exit_raises (store a) = Some e.
Proof.
  unfold process_batch_with_retry, process_batch_with_retry_log. intros Hr.
  apply retry_loop_raises in Hr as (a & Hin & Hb & Hne).
  split; [exact Hne|]. exists a. split.
  - apply in_seq in Hin. lia.
  - apply bulk_write_raises_source in Hb as [Hexit| ->]; [assumption|].
    exfalso. exact (Hne THROTTLED eq_refl).
Qed.

End MoreWorkerFacts.

(** ** The tally of the engine *)

Section MoreEngineFacts.

Variable float : Type.

Lemma submit_all_pointwise (env : pool_env)
    (P : nat -> list (value float) -> Prop) (Q : list (value float) -> Z * Z -> Prop) :
  (forall i b, P i b -> Q b (contribution (future_of env i b))) ->
  forall batches k,
    (forall i b, nth_error batches i = Some b -> P (k + i)%nat b) ->
    Forall2 Q batches (map (@contribution float) (submit_all env k batches)).
Proof.
  intros HPQ. induction batches as [|b bs IH]; intros k HP; simpl; constructor.
  - apply HPQ. specialize (HP 0%nat b eq_refl). now rewrite Nat.add_0_r in HP.
  - apply IH. intros i b' Hnth.
    specialize (HP (S i) b' Hnth). now replace (S k + i)%nat with (k + S i)%nat by lia.
Qed.

Lemma submit_all_same_workers (env env' : pool_env) (batches : list (list (value float))) :
  store env' = store env -> uniform env' = uniform env ->
  forall k, submit_all env' k batches = submit_all env k batches.
Proof.
  intros Hs Hu. induction batches as [|b bs IH]; intros k; simpl; [reflexivity|].
  unfold future_of. now rewrite Hs, Hu, IH.
Qed.

(** X8: with no failure of the pool, the pair returned does not depend on the
    order in which the batches complete. *)
Theorem batch_write_items_order_independent (env : pool_env) (order : list nat)
    (items : list (value float)) :
  collect_fault env = None ->
  Permutation (completion_order env) (seq 0 (length (split_batches batch_size items))) ->
  Permutation order (seq 0 (length (split_batches batch_size items))) ->
  batch_write_items
    {| store := store env; uniform := uniform env; completion_order := order;
       submit_fault := submit_fault env; collect_fault := None |} items
  = batch_write_items env items.
Proof.
  intros Hcol Hperm Hperm'.
  set (env' := {| store := store env; uniform := uniform env; completion_order := order;
                  submit_fault := submit_fault env; collect_fault := None |}).
  assert (Hsame : submit_all env' 0 (split_batches batch_size items)
                  = submit_all env 0 (split_batches batch_size items))
    by (apply submit_all_same_workers; reflexivity).
  assert (Hcollect : collect_results env' (Z.of_nat (length items))
                       (submit_all env' 0 (split_batches batch_size items))
                     = collect_results env (Z.of_nat (length items))
                         (submit_all env 0 (split_batches batch_size items))).
  { rewrite Hsame.
    rewrite (@collect_results_total float env'), (@collect_results_total float env);
      try reflexivity; try assumption; rewrite submit_all_length; assumption. }
  unfold batch_write_items, batch_write_items_run.
  destruct (Nat.min 10 (length (split_batches batch_size items)) =? 0)%nat; [reflexivity|].
  change (submit_raises env' (split_batches batch_size items))
    with (submit_raises env (split_batches batch_size items)).
  destruct (submit_raises env (split_batches batch_size items)); [reflexivity|].
  cbn [fst]. exact Hcollect.
Qed.

Lemma zsum_pairs (batches : list (list (value float))) (outs : list (Z * Z)) :
  Forall2 (fun b out => fst out + snd out = Z.of_nat (length b)) batches outs ->
  zsum (map fst outs) + zsum (map snd outs) = Z.of_nat (length (concat batches)).
Proof.
  induction 1 as [|b out bs os Hb _ IH]; simpl; [reflexivity|].
  rewrite length_app, Nat2Z.inj_add. lia.
Qed.

(** X9: when the pool does not fail and each batch has an attempt, among its
    five, that completes after throttled ones, every record is counted once:
    [success_count + error_count] is the number of records. *)
Theorem batch_write_items_counts_every_record (env : pool_env)
    (items : list (value float)) :
  submit_raises env (split_batches batch_size items) = None ->
  collect_fault env = None ->
  Permutation (completion_order env) (seq 0 (length (split_batches batch_size items))) ->
  (forall i batch,
      nth_error (split_batches batch_size items) i = Some batch ->
      exists a,
        (a < default_max_retries)%nat
        /\ (forall k, (k < a)%nat ->
              bulk_write_raises (store env i k) batch = Some (ClientError THROTTLED))
        /\ bulk_write_raises (store env i a) batch = None) ->
  fst (batch_write_items env items) + snd (batch_write_items env items)
  = Z.of_nat (length items).
Proof.
  intros Hsub Hcol Hperm Hdone.
  destruct items as [|x items]; [reflexivity|].
  rewrite batch_write_items_total by (try assumption; discriminate).
  cbn [fst snd].
  rewrite (zsum_pairs (batches := split_batches batch_size (x :: items))).
  - rewrite split_batches_concat by (unfold batch_size; lia). reflexivity.
  - apply (submit_all_pointwise env
             (fun i b => nth_error (split_batches batch_size (x :: items)) i = Some b));
      [|intros i b Hnth; exact Hnth].
    intros i b Hnth. destruct (Hdone i b Hnth) as (a & Ha & Hthr & Hok).
    unfold future_of, contribution, process_batch_with_retry.
    destruct (@worker_completes_at float (store env i) (uniform env i)
                default_max_retries b a Ha Hthr Hok) as (Hr & Hsum & _).
    cbv zeta in Hr. rewrite Hr. exact Hsum.
Qed.

End MoreEngineFacts.

Section FlushThrottling.

Variable float : Type.

Lemma count_accepted_all (script : bulk_attempt) (n : nat) :
  (forall pos, put_item_raises script pos = None) ->
  forall start, count_accepted script start n = Z.of_nat n.
Proof.
  intros Hall. induction n as [|n IH]; intros start; [reflexivity|].
  rewrite count_accepted_step, IH. unfold accepted. rewrite Hall. lia.
Qed.

Lemma flush_throttled_attempt (script : bulk_attempt) (batch : list (value float)) :
  (forall pos, put_item_raises script pos = None) ->
  exit_raises script = Some (ClientError THROTTLED) ->
  bulk_write_raises script batch = Some (ClientError THROTTLED)
  /\ local_success (attempt_counts script batch) = Z.of_nat (length batch)
  /\ local_errors (attempt_counts script batch) = 0.
Proof.
  intros Hall Hexit. unfold bulk_write_raises, attempt_counts, bulk_write.
  pose proof (@put_items_unthrottled float script batch 0%nat zero_counters) as H.
  cbv zeta in H.
  destruct (put_items script 0 batch zero_counters) as [[c log] raised].
  cbn [fst snd] in *. rewrite Hexit.
  destruct H as (_ & _ & H3 & H4); [intros q _; rewrite Hall; discriminate|].
  rewrite count_accepted_all in H3 by assumption.
  cbn [local_success local_errors zero_counters] in *. repeat split; lia.
Qed.

Lemma zsum_all_success (batches : list (list (value float))) (outs : list (Z * Z)) :
  Forall2 (fun b out => out = (Z.of_nat (length b), 0)) batches outs ->
  zsum (map fst outs) = Z.of_nat (length (concat batches)) /\ zsum (map snd outs) = 0.
Proof.
  induction 1 as [|b out bs os Hb _ [IH1 IH2]]; simpl; [split; reflexivity|].
  subst out. cbn [fst snd]. rewrite length_app, Nat2Z.inj_add. lia.
Qed.

(** X10: when the store takes every item into the buffer and throttles each bulk
    write on leaving it, at all five attempts of every batch, the engine
    returns [(N, 0)]: the records of the abandoned batches are all counted as
    successes and none as an error. *)
Theorem throttled_flush_is_counted_as_success (env : pool_env)
    (items : list (value float)) :
  submit_raises env (split_batches batch_size items) = None ->
  collect_fault env = None ->
  Permutation (completion_order env) (seq 0 (length (split_batches batch_size items))) ->
  (forall i attempt,
      (forall pos, put_item_raises (store env i attempt) pos = None)
      /\ exit_raises (store env i attempt) = Some (ClientError THROTTLED)) ->
  batch_write_items env items = (Z.of_nat (length items), 0).
Proof.
  intros Hsub Hcol Hperm Hflush.
  destruct items as [|x items]; [reflexivity|].
  rewrite batch_write_items_total by (try assumption; discriminate).
  destruct (@zsum_all_success (split_batches batch_size (x :: items))
              (map (@contribution float)
                   (submit_all env 0 (split_batches batch_size (x :: items)))))
    as [H1 H2].
  - apply (submit_all_pointwise env (fun _ _ => True)); [|trivial].
    intros i b _.
    unfold future_of, contribution, process_batch_with_retry, process_batch_with_retry_log,
      default_max_retries.
    destruct (@retry_loop_always_throttled float (store env i) (uniform env i) 5 b
                (fun a => proj1 (@flush_throttled_attempt (store env i a) b
                                   (proj1 (Hflush i a)) (proj2 (Hflush i a))))
                4%nat 0%nat eq_refl) as (Hr & _).
    cbv zeta in Hr. rewrite Hr.
    destruct (@flush_throttled_attempt (store env i (0 + 4)%nat) b
                (proj1 (Hflush i (0 + 4)%nat))
                (proj2 (Hflush i (0 + 4)%nat))) as (_ & -> & ->).
    reflexivity.
  - rewrite H1, H2, split_batches_concat by (unfold batch_size; lia). reflexivity.
Qed.

End FlushThrottling.

(** ** More on the purge *)

Section MorePurgeFacts.

Variable float : Type.

(** X11: when the scan ends without a fault and finds no item, the purge returns
    [True] and asks for no deletion, whatever the store would answer to one. *)
Theorem purge_of_empty_table (env : purge_env float) (pk_name : string)
    (sk_name : option string) :
  scan_fault (scan env) = None ->
  session_items (scan env) = [] ->
  delete_all_items_from_table env pk_name sk_name = true
  /\ delete_requests (delete_all_items_run env pk_name sk_name) = [].
Proof.
  intros Hok Hempty. unfold delete_all_items_from_table, delete_all_items_run.
  rewrite (scan_pages_all _ Hok). cbn [app]. rewrite Hempty. split; reflexivity.
Qed.

Lemma purge_handler_false (e : exn) :
  e <> ClientError NOT_FOUND -> purge_handler e = false.
Proof.
  destruct e as [code| | | | |]; try reflexivity. simpl. intros Hne.
  destruct (String.eqb_spec code NOT_FOUND) as [->|]; [congruence|reflexivity].
Qed.

(** X12: when a scan call raises, on the first page or on a later one, nothing is
    deleted, the items of the pages already read included, and the purge
    returns [False] unless the exception is "table not found". *)
Theorem purge_stops_on_scan_fault (env : purge_env float) (pk_name : string)
    (sk_name : option string) (e : exn) :
  scan_fault (scan env) = Some e ->
  delete_requests (delete_all_items_run env pk_name sk_name) = []
  /\ (e <> ClientError NOT_FOUND ->
      delete_all_items_from_table env pk_name sk_name = false).
Proof.
  intros Hf. unfold delete_all_items_from_table, delete_all_items_run.
  pose proof (scan_pages_fault _ Hf None []) as Hr.
  destruct (scan_pages (scan env) None []) as [scanned calls].
  simpl in Hr. subst scanned. cbn. split; [reflexivity|apply purge_handler_false].
Qed.




End MorePurgeFacts.

(** ** More on one table *)

Section MoreTableFacts.

Variable float : Type.
Variable str : float -> string.

Lemma table_exists_true (w : world float) (name : string) :
  describe_table_raises w name = None -> table_exists w name = Returned true.
Proof. unfold table_exists. now intros ->. Qed.

Lemma table_exists_false (w : world float) (name : string) :
  describe_table_raises w name = Some (ClientError NOT_FOUND) ->
  table_exists w name = Returned false.
Proof. unfold table_exists. now intros ->. Qed.

Lemma populate_table_existing_append (w : world float) (filename : string)
    (config : table_config) (global_action : option string) :
  describe_table_raises w (table_name config) = None ->
  global_action <> Some "replace" ->
  populate_table str w filename config global_action = load_and_write str w filename.
Proof.
  intros Hex Hact. unfold populate_table. rewrite (table_exists_true _ _ Hex).
  destruct global_action as [action|]; [|reflexivity].
  destruct (String.eqb_spec action "replace") as [->|]; [congruence|reflexivity].
Qed.

(** X14: on an existing table, the replace policy differs from the append policy
    only when the probe [scan(Limit=1)] returns a positive count: then the
    table is purged first, and skipped with [False] when the purge fails.  When
    the probe raises, or reports no item, nothing is purged and the file is
    loaded as under append. *)
Theorem populate_table_replace_policy (w : world float) (filename : string)
    (config : table_config) :
  describe_table_raises w (table_name config) = None ->
  let append := populate_table str w filename config (Some "append") in
  let replace := populate_table str w filename config (Some "replace") in
  (forall e, scan_limit_1 w = Raised e -> replace = append)
  /\ (forall Count, scan_limit_1 w = Returned Count ->
        match Count with Some n => n | None => 0 end <= 0 -> replace = append)
  /\ (forall n, scan_limit_1 w = Returned (Some n) -> 0 < n ->
        replace = if delete_all_items_from_table (purge w) (pk config) (sk config)
                  then append else Returned false).
Proof.
  intros Hex append replace. subst append replace.
  rewrite (@populate_table_existing_append w filename config (Some "append") Hex)
    by discriminate.
  unfold populate_table. rewrite (table_exists_true _ _ Hex).
  change (String.eqb "replace" "replace") with true. cbv iota.
  split; [|split].
  - intros e ->. reflexivity.
  - intros Count -> Hle.
    destruct (Z.gtb_spec (match Count with Some n => n | None => 0 end) 0); [lia|reflexivity].
  - intros n -> Hpos. destruct (Z.gtb_spec n 0); [|lia].
    destruct (delete_all_items_from_table (purge w) (pk config) (sk config)); reflexivity.
Qed.

(** X15: under any policy other than replace, the probe and the purge play no
    part: what [populate_table] returns does not depend on them. *)
Theorem populate_table_purges_only_under_replace (w : world float) (filename : string)
    (config : table_config) (global_action : option string)
    (probe : result (option Z)) (purge' : purge_env float) :
  global_action <> Some "replace" ->
  populate_table str
    {| describe_table_raises := describe_table_raises w;
       create_table_raises := create_table_raises w;
       wait_until_exists_raises := wait_until_exists_raises w;
       scan_limit_1 := probe;
       purge := purge';
       json_load := json_load w;
       pool := pool w |} filename config global_action
  = populate_table str w filename config global_action.
Proof.
  intros Hact. unfold populate_table, table_exists, create_table, load_and_write,
    load_json_file. cbn [describe_table_raises create_table_raises wait_until_exists_raises
                           json_load pool].
  destruct (describe_table_raises w (table_name config)) as [[code| | | | |]|];
    try reflexivity.
  - destruct (String.eqb code NOT_FOUND); reflexivity.
  - destruct global_action as [action|]; [|reflexivity].
    destruct (String.eqb_spec action "replace") as [->|]; [congruence|reflexivity].
Qed.

(** X16: on an existing table under the append policy: a missing or undecodable
    file, or a document that is not a list, gives [False]; an empty list gives
    [True]; otherwise the converted records go to the engine and the table
    passes exactly when the engine's error count is 0. *)
Theorem populate_table_file_cases (w : world float) (filename : string)
    (config : table_config) :
  describe_table_raises w (table_name config) = None ->
  let run := populate_table str w filename config (Some "append") in
  (json_load w filename = Raised FileNotFoundError
   \/ json_load w filename = Raised JSONDecodeError -> run = Returned false)
  /\ (forall data, json_load w filename = Returned data ->
        (forall l, data <> VList l) -> run = Returned false)
  /\ (json_load w filename = Returned (VList []) -> run = Returned true)
  /\ (forall x l, json_load w filename = Returned (VList (x :: l)) ->
        run = Returned
                (snd (batch_write_items (pool w)
                        (map (convert_float_to_decimal str) (x :: l))) =? 0)
        /\ Forall (fun it => has_float it = false)
                  (map (convert_float_to_decimal str) (x :: l))).
Proof.
  intros Hex run. subst run.
  rewrite (@populate_table_existing_append w filename config (Some "append") Hex)
    by discriminate.
  unfold load_and_write, load_json_file.
  split; [|split; [|split]].
  - intros [-> | ->]; reflexivity.
  - intros data -> Hnot.
    destruct data as [| | | | | |l|]; try reflexivity.
    exfalso. exact (Hnot l eq_refl).
  - intros ->. reflexivity.
  - intros x l ->. cbn [convert_float_to_decimal map]. split.
    + destruct (batch_write_items (pool w) _) as [s e]. reflexivity.
    + change (convert_float_to_decimal str x :: map (convert_float_to_decimal str) l)
        with (map (convert_float_to_decimal str) (x :: l)).
      apply Forall_forall. intros it Hin.
      apply in_map_iff in Hin as (y & <- & _). apply convert_has_no_float.
Qed.

(** X17: when the table does not exist: a [ClientError] raised by the creation or
    by the wait for it makes [populate_table] return [False], whatever the
    policy, the file and the store; after a creation that succeeds the policy
    plays no part, the new table is not purged. *)
Theorem populate_table_new_table (w : world float) (filename : string)
    (config : table_config) (global_action : option string) :
  describe_table_raises w (table_name config) = Some (ClientError NOT_FOUND) ->
  ((forall request, exists code, create_table_raises w request = Some (ClientError code)) ->
   populate_table str w filename config global_action = Returned false)
  /\ ((forall request, create_table_raises w request = None) ->
      (forall code, wait_until_exists_raises w = Some (ClientError code) ->
         populate_table str w filename config global_action = Returned false)
      /\ (wait_until_exists_raises w = None ->
          forall other_action,
            populate_table str w filename config global_action
            = populate_table str w filename config other_action)).
Proof.
  intros Hmissing. unfold populate_table. rewrite (table_exists_false _ _ Hmissing).
  unfold create_table.
  destruct (match sk config with
            | Some s => if truthy (sk config) then _ else _
            | None => _
            end) as [key_schema attribute_definitions].
  split.
  - intros Hfail.
    match goal with
    | |- context [create_table_raises w ?r] => destruct (Hfail r) as (code & ->)
    end. reflexivity.
  - intros Hok. rewrite Hok. split.
    + intros code ->. reflexivity.
    + intros -> other_action. reflexivity.
Qed.

End MoreTableFacts.

(** ** Configuration, prompt and run *)

Section CoordinatorFacts.

Variable float : Type.
Variable str : float -> string.
Variable strip : string -> string.

(** X18: the prompt skips every line that does not strip to "1" or "2" and decides
    on the first one that does; it returns nothing but "append" and
    "replace"; when the input ends before a valid line, the exception of
    [input] leaves it. *)
Theorem ask_user_action_global_first_valid_line (skipped : list string)
    (line : string) (rest : list string) :
  Forall (fun l => strip l <> "1" /\ strip l <> "2") skipped ->
  (strip line = "1" ->
     ask_user_action_global strip (skipped ++ line :: rest) = (Returned "append", rest))
  /\ (strip line = "2" ->
        ask_user_action_global strip (skipped ++ line :: rest) = (Returned "replace", rest))
  /\ ask_user_action_global strip skipped = (Raised OtherException, [])
  /\ forall stdin action,
       fst (ask_user_action_global strip stdin) = Returned action ->
       action = "append" \/ action = "replace".
Proof.
  intros Hskip. split; [|split; [|split]].
  - intros H1. induction Hskip as [|l ls [Hl1 Hl2] _ IH]; cbn [app ask_user_action_global].
    + rewrite H1. reflexivity.
    + destruct (String.eqb_spec (strip l) "1"); [contradiction|].
      destruct (String.eqb_spec (strip l) "2"); [contradiction|]. exact IH.
  - intros H2. induction Hskip as [|l ls [Hl1 Hl2] _ IH]; cbn [app ask_user_action_global].
    + rewrite H2. reflexivity.
    + destruct (String.eqb_spec (strip l) "1"); [contradiction|].
      destruct (String.eqb_spec (strip l) "2"); [contradiction|]. exact IH.
  - induction Hskip as [|l ls [Hl1 Hl2] _ IH]; cbn [ask_user_action_global]; [reflexivity|].
    destruct (String.eqb_spec (strip l) "1"); [contradiction|].
    destruct (String.eqb_spec (strip l) "2"); [contradiction|]. exact IH.
  - intros stdin action. induction stdin as [|l ls IH]; cbn [ask_user_action_global].
    + discriminate.
    + destruct (String.eqb (strip l) "1"); [intros H; injection H as <-; now left|].
      destruct (String.eqb (strip l) "2"); [intros H; injection H as <-; now right|].
      exact IH.
Qed.

End CoordinatorFacts.

Section MappingFacts.

Lemma TABLE_MAPPING_files (getenv : string -> option string) :
  map fst (TABLE_MAPPING getenv)
  = ["locales.json"; "usuarios.json"; "productos.json"; "empleados.json";
     "combos.json"; "pedidos.json"; "ofertas.json"; "resenas.json"].
Proof. reflexivity. Qed.

Lemma TABLE_MAPPING_NoDup (getenv : string -> option string) :
  NoDup (map fst (TABLE_MAPPING getenv)).
Proof.
  rewrite TABLE_MAPPING_files.
  repeat (constructor; [cbn; intuition discriminate|]). constructor.
Qed.

Lemma mapping_get_In (mapping : list (string * mapping_entry)) (filename : string)
    (config : mapping_entry) :
  NoDup (map fst mapping) ->
  In (filename, config) mapping ->
  mapping_get mapping filename = Some config.
Proof.
  induction mapping as [|[name c] rest IH]; intros Hnd Hin; [contradiction|].
  inversion Hnd as [|? ? Hnotin Hrest]; subst. cbn [mapping_get].
  destruct Hin as [Heq|Hin].
  - injection Heq as -> ->. now rewrite String.eqb_refl.
  - destruct (String.eqb_spec name filename) as [->|_]; [|auto].
    exfalso. apply Hnotin. apply in_map_iff. now exists (filename, config).
Qed.

Lemma mapping_get_not_In (mapping : list (string * mapping_entry)) (filename : string) :
  ~ In filename (map fst mapping) -> mapping_get mapping filename = None.
Proof.
  induction mapping as [|[name c] rest IH]; intros Hnot; [reflexivity|].
  cbn [mapping_get]. cbn in Hnot.
  destruct (String.eqb_spec name filename) as [->|_]; [tauto|]. apply IH. tauto.
Qed.

(** X19: [get_table_keys] gives, for each file of [TABLE_MAPPING], the keys of its
    entry: a partition key that is not empty and, when there is a sort key, one
    that is not empty and differs from the partition key.  For any other name
    it gives [(None, None)].  The table names of the environment play no
    part. *)
Theorem get_table_keys_of_mapping (getenv : string -> option string) (filename : string) :
  (forall config, In (filename, config) (TABLE_MAPPING getenv) ->
     get_table_keys getenv filename = (Some (entry_pk config), entry_sk config)
     /\ entry_pk config <> EmptyString
     /\ entry_sk config <> Some EmptyString
     /\ entry_sk config <> Some (entry_pk config))
  /\ (~ In filename (map fst (TABLE_MAPPING getenv)) ->
      get_table_keys getenv filename = (None, None))
  /\ get_table_keys getenv filename = get_table_keys (fun _ => None) filename.
Proof.
  split; [|split].
  - intros config Hin. split.
    + unfold get_table_keys.
      now rewrite (mapping_get_In _ _ _ (TABLE_MAPPING_NoDup getenv) Hin).
    + cbn in Hin.
      repeat (destruct Hin as [Hin|Hin];
              [injection Hin as <- <-; cbn; repeat split; discriminate|]).
      contradiction.
  - intros Hnot. unfold get_table_keys. now rewrite mapping_get_not_In.
  - unfold get_table_keys, TABLE_MAPPING. cbn [mapping_get].
    repeat match goal with
    | |- context [String.eqb ?a filename] => destruct (String.eqb a filename)
    end; reflexivity.
Qed.

End MappingFacts.

Section RunFacts.

Variable float : Type.
Variable str : float -> string.
Variable strip : string -> string.

(** X21: [main] returns before checking any table and before asking anything when
    there are no credentials, when [DATA_DIR] does not exist, or when the
    connection fails: none of these raises. *)
Theorem main_returns_early (env : run_env float) :
  verify_credentials env = false
  \/ data_dir_exists env = false
  \/ (exists e, connect_raises env = Some e) ->
  main str strip env = Returned None.
Proof.
  unfold main, get_dynamodb_client.
  intros [Hc|[Hd|(e & He)]].
  - now rewrite Hc.
  - destruct (verify_credentials env); [|reflexivity]. now rewrite Hd.
  - destruct (verify_credentials env); [|reflexivity].
    destruct (data_dir_exists env); [|reflexivity]. now rewrite He.
Qed.

Lemma results_set_fresh (results : list (string * bool)) (filename : string)
    (success : bool) :
  ~ In filename (map fst results) ->
  results_set results filename success = results ++ [(filename, success)].
Proof.
  induction results as [|[name b] rest IH]; intros Hnot; [reflexivity|].
  cbn [results_set app]. cbn in Hnot.
  destruct (String.eqb_spec name filename) as [->|_];
    [exfalso; apply Hnot; now left|].
  rewrite IH by (intros Hin; apply Hnot; now right). reflexivity.
Qed.

Lemma populate_all_prefix (env : run_env float) (action : string)
    (rest : list (string * mapping_entry)) :
  forall before results,
    NoDup (map fst results ++ map fst before) ->
    (forall f c,
        In (f, c) (filter (fun '(_, config) => truthy (entry_table_name config)) before) ->
        exists b, populate_entry str env action f c = Returned b) ->
    exists added,
      populate_all str env action (before ++ rest) results
      = populate_all str env action rest (results ++ added)
      /\ Forall2 (fun fc fb => fst fb = fst fc
                               /\ populate_entry str env action (fst fc) (snd fc)
                                  = Returned (snd fb))
                 (filter (fun '(_, config) => truthy (entry_table_name config)) before)
                 added.
Proof.
  induction before as [|[f c] before IH]; intros results Hnd Hret.
  - exists []. rewrite app_nil_r. split; [reflexivity|constructor].
  - assert (Hnd' : forall b, NoDup (map fst (results ++ [(f, b)]) ++ map fst before)).
    { intros b. rewrite map_app, <- app_assoc. exact Hnd. }
    assert (Hfresh : ~ In f (map fst results)).
    { intros Hin. apply NoDup_remove_2 in Hnd. apply Hnd, in_or_app. now left. }
    assert (Hnd0 : NoDup (map fst results ++ map fst before))
      by (apply NoDup_remove_1 in Hnd; exact Hnd).
    cbn [app populate_all filter] in *.
    destruct (entry_table_name c) as [name|] eqn:Hname.
    + destruct (truthy (Some name)) eqn:Htruthy.
      * destruct (Hret f c (or_introl eq_refl)) as (b & Hb).
        unfold populate_entry in Hb. rewrite Hname in Hb. rewrite Hb.
        rewrite results_set_fresh by assumption.
        destruct (IH (results ++ [(f, b)]) (Hnd' b)) as (added & Heq & Hall).
        { intros f' c' Hin. apply Hret. now right. }
        exists ((f, b) :: added). rewrite Heq, <- app_assoc. split; [reflexivity|].
        constructor; [|assumption]. cbn [fst snd]. split; [reflexivity|].
        unfold populate_entry. now rewrite Hname.
      * exact (IH results Hnd0 Hret).
    + cbn [truthy] in *. exact (IH results Hnd0 Hret).
Qed.

Lemma summary_total (results : list (string * bool)) :
  fst (summary results) + snd (summary results) = Z.of_nat (length results)
  /\ 0 <= fst (summary results) /\ 0 <= snd (summary results).
Proof.
  unfold summary. cbn [fst snd].
  pose proof (filter_length_le (fun '(_, success) => success) results). lia.
Qed.

(** X22: when the run gets past its checks and the prompt, and no call of
    [populate_table] raises, [main] goes through every entry of
    [TABLE_MAPPING] whose table name is set, in order, and skips the others: a
    table that fails does not stop the following ones.  The results hold one
    boolean per such entry, the one its [populate_table] returned, and the
    numbers of the summary add up to the number of these entries. *)
Theorem main_populates_configured_tables (env : run_env float) (action : string) :
  verify_credentials env = true ->
  data_dir_exists env = true ->
  connect_raises env = None ->
  ensure_tokens_table env = Returned tt ->
  fst (ask_user_action_global strip (stdin env)) = Returned action ->
  (forall f c, In (f, c) (configured (getenv env)) ->
               exists b, populate_entry str env action f c = Returned b) ->
  exists results,
    main str strip env = Returned (Some results)
    /\ map fst results = map fst (configured (getenv env))
    /\ Forall2 (fun fc fb => populate_entry str env action (fst fc) (snd fc)
                             = Returned (snd fb))
               (configured (getenv env)) results
    /\ fst (summary results) + snd (summary results)
       = Z.of_nat (length (configured (getenv env)))
    /\ 0 <= fst (summary results) /\ 0 <= snd (summary results).
Proof.
  intros Hcred Hdir Hconn Htok Hask Hret.
  destruct (@populate_all_prefix env action [] (TABLE_MAPPING (getenv env)) [])
    as (results & Heq & Hall).
  { cbn [map app]. apply TABLE_MAPPING_NoDup. }
  { exact Hret. }
  rewrite app_nil_r in Heq. cbn [app populate_all] in Heq.
  exists results.
  assert (Hnames : map fst results = map fst (configured (getenv env))).
  { unfold configured. clear - Hall.
    induction Hall as [|fc fb l l' [Hf _] _ IH]; cbn [map]; congruence. }
  split.
  - unfold main, get_dynamodb_client. rewrite Hcred, Hdir, Hconn, Htok, Hask, Heq.
    reflexivity.
  - split; [exact Hnames|]. split.
    + unfold configured. clear - Hall.
      induction Hall as [|fc fb l l' [_ Hb] _ IH]; constructor; assumption.
    + destruct (summary_total results) as (Hsum & H1 & H2).
      rewrite Hsum. repeat split; try assumption.
      now rewrite <- (length_map fst results), Hnames, length_map.
Qed.

(** X23: an exception that leaves the tokens check, the prompt, or the
    [populate_table] of a table ends the run with that exception: the tables
    that come after are not populated and no summary is made. *)
Theorem main_stops_at_first_exception (env : run_env float) (e : exn) :
  verify_credentials env = true ->
  data_dir_exists env = true ->
  connect_raises env = None ->
  (ensure_tokens_table env = Raised e -> main str strip env = Raised e)
  /\ (ensure_tokens_table env = Returned tt ->
      (fst (ask_user_action_global strip (stdin env)) = Raised e ->
       main str strip env = Raised e)
      /\ forall action before f c after,
           fst (ask_user_action_global strip (stdin env)) = Returned action ->
           TABLE_MAPPING (getenv env) = before ++ (f, c) :: after ->
           (forall f' c',
               In (f', c')
                  (filter (fun '(_, config) => truthy (entry_table_name config)) before) ->
               exists b, populate_entry str env action f' c' = Returned b) ->
           truthy (entry_table_name c) = true ->
           populate_entry str env action f c = Raised e ->
           main str strip env = Raised e).
Proof.
  intros Hcred Hdir Hconn. unfold main, get_dynamodb_client.
  rewrite Hcred, Hdir, Hconn. cbn [negb]. split.
  - intros ->. reflexivity.
  - intros ->. split.
    + intros ->. reflexivity.
    + intros action before f c after -> Hsplit Hret Htruthy Hraise.
      rewrite Hsplit.
      destruct (@populate_all_prefix env action ((f, c) :: after) before [])
        as (added & -> & _).
      { cbn [map app]. pose proof (TABLE_MAPPING_NoDup (getenv env)) as Hnd.
        rewrite Hsplit, map_app in Hnd. apply NoDup_app_remove_r in Hnd. exact Hnd. }
      { exact Hret. }
      cbn [populate_all app].
      unfold populate_entry in Hraise.
      destruct (entry_table_name c) as [name|]; [|discriminate].
      rewrite Htruthy, Hraise. reflexivity.
Qed.

End RunFacts.

Section NamesFacts.

Lemma NoDup_fst_unique (X Y : Type) (l : list (X * Y)) (x : X) (y y' : Y) :
  NoDup (map fst l) -> In (x, y) l -> In (x, y') l -> y = y'.
Proof.
  induction l as [|[a b] l IH]; intros Hnd H1 H2; [contradiction|].
  inversion Hnd as [|? ? Hnot Hrest]; subst.
  assert (Hfst : forall z, In (a, z) l -> False).
  { intros z Hz. apply Hnot. apply in_map_iff. now exists (a, z). }
  destruct H1 as [E1|H1], H2 as [E2|H2].
  - congruence.
  - injection E1 as -> ->. exfalso. eauto.
  - injection E2 as -> ->. exfalso. eauto.
  - auto.
Qed.

(** X20: [verify_table_names] returns [True] exactly when no entry of
    [TABLE_MAPPING] lacks its table name; the files it lists as missing and
    the entries that [main] populates are, together, the eight entries, and a
    file is listed as missing exactly when the name of its entry is unset or
    empty. *)
Theorem verify_table_names_lists_skipped_tables (getenv : string -> option string) :
  (verify_table_names getenv = true <-> configured getenv = TABLE_MAPPING getenv)
  /\ (length (missing_tables getenv) + length (configured getenv) = 8)%nat
  /\ forall f c, In (f, c) (TABLE_MAPPING getenv) ->
       (In f (missing_tables getenv) <-> truthy (entry_table_name c) = false).
Proof.
  set (p := fun fc : string * mapping_entry => truthy (entry_table_name (snd fc))).
  assert (Hconf : configured getenv = filter p (TABLE_MAPPING getenv)).
  { unfold configured. apply filter_ext; intros [f c]; reflexivity. }
  assert (Hmiss : missing_tables getenv
                  = map fst (filter (fun fc => negb (p fc)) (TABLE_MAPPING getenv))).
  { unfold missing_tables. f_equal; try (apply filter_ext; intros [f c]; reflexivity). }
  assert (Hlen : (length (missing_tables getenv) + length (configured getenv) = 8)%nat).
  { rewrite Hmiss, Hconf, length_map.
    pose proof (filter_length p (TABLE_MAPPING getenv)) as H.
    change (length (TABLE_MAPPING getenv)) with 8%nat in H. lia. }
  split; [|split; [exact Hlen|]].
  - unfold verify_table_names. split.
    + intros Hv. destruct (missing_tables getenv) as [|m ms]; [|discriminate].
      rewrite Hconf. apply forallb_filter_id, filter_length_forallb.
      rewrite <- Hconf. change (length (TABLE_MAPPING getenv)) with 8%nat.
      simpl in Hlen. lia.
    + intros Heq. rewrite Heq in Hlen.
      change (length (TABLE_MAPPING getenv)) with 8%nat in Hlen.
      destruct (missing_tables getenv); [reflexivity|simpl in Hlen; lia].
  - intros f c Hin. rewrite Hmiss. split.
    + intros Hf. apply in_map_iff in Hf as ([f' c'] & Hfst & Hf).
      cbn in Hfst. subst f'. apply filter_In in Hf as [Hin' Hp].
      rewrite (NoDup_fst_unique _ _ _ _ (TABLE_MAPPING_NoDup getenv) Hin Hin').
      unfold p in Hp. cbn in Hp. now apply negb_true_iff in Hp.
    + intros Hfalse. apply in_map_iff. exists (f, c). split; [reflexivity|].
      apply filter_In. split; [assumption|]. unfold p. cbn. now rewrite Hfalse.
Qed.

End NamesFacts.

(** * Worked runs for the further properties *)

Lemma convert_float_to_decimal_stable_witness :
  has_float (VList [VInt 1; VStr "a"; VDecimal "18.5"] : value Q) = false
  /\ convert_float_to_decimal example_str (VList [VInt 1; VStr "a"; VDecimal "18.5"])
     = VList [VInt 1; VStr "a"; VDecimal "18.5"].
Proof.
  split; [reflexivity|].
  exact (proj1 (@convert_float_to_decimal_stable Q example_str
                  (VList [VInt 1; VStr "a"; VDecimal "18.5"])) eq_refl).
Defined.

Lemma split_batches_locates_record_witness :
  nth_error (numbered 30) 27 = Some (VInt 27)
  /\ exists batch,
       nth_error (split_batches batch_size (numbered 30)) 1 = Some batch
       /\ nth_error batch 2 = Some (VInt 27).
Proof.
  split; [reflexivity|].
  exact (@split_batches_locates_record (value Q) (numbered 30) 27%nat (VInt 27) eq_refl).
Defined.

Lemma unthrottled_attempt_puts_every_item_witness :
  (forall pos, put_item_raises reject_first pos <> Some (ClientError THROTTLED))
  /\ puts_of (snd (fst (bulk_write reject_first 0 (numbered 3) zero_counters))) = numbered 3
  /\ local_success (fst (fst (bulk_write reject_first 0 (numbered 3) zero_counters))) = 2.
Proof.
  assert (H : forall pos, put_item_raises reject_first pos <> Some (ClientError THROTTLED)).
  { intros pos. simpl. destruct (pos =? 0)%nat; discriminate. }
  split; [exact H|].
  destruct (@unthrottled_attempt_puts_every_item Q reject_first 0%nat (numbered 3) H)
    as (Hputs & Hs & _).
  split; [exact Hputs|exact Hs].
Defined.

Lemma throttled_put_stops_the_attempt_witness :
  put_item_raises (throttle_at 1) 1 = Some (ClientError THROTTLED)
  /\ puts_of (snd (fst (bulk_write (throttle_at 1) 0 (numbered 3) zero_counters)))
     = [VInt 0; VInt 1]
  /\ snd (bulk_write (throttle_at 1) 0 (numbered 3) zero_counters)
     = Some (ClientError THROTTLED).
Proof.
  assert (Hlt : (1 < length (numbered 3))%nat) by (simpl; lia).
  assert (Hbefore : forall q, (q < 1)%nat ->
             put_item_raises (throttle_at 1) q <> Some (ClientError THROTTLED)).
  { intros q Hq. destruct q; [discriminate|lia]. }
  destruct (@throttled_put_stops_the_attempt Q (throttle_at 1) 0%nat (numbered 3) 1%nat
              Hlt eq_refl Hbefore) as (Hputs & _ & _ & Hraise).
  split; [reflexivity|]. split; [exact Hputs|exact (Hraise eq_refl)].
Defined.

Lemma completed_attempt_accounts_for_every_item_witness :
  bulk_write_raises (throttled_once 0) one_record = Some (ClientError THROTTLED)
  /\ bulk_write_raises (throttled_once 1) one_record = None
  /\ fst (process_batch_with_retry_log throttled_once (fun _ => half) one_record 5)
     = Returned (1, 0)
  /\ attempts_of (snd (process_batch_with_retry_log throttled_once (fun _ => half)
                         one_record 5)) = [0; 1]%nat.
Proof.
  assert (Hlt : (1 < 5)%nat) by lia.
  assert (Hthr : forall k, (k < 1)%nat ->
             bulk_write_raises (throttled_once k) one_record = Some (ClientError THROTTLED)).
  { intros k Hk. destruct k; [reflexivity|lia]. }
  destruct (@completed_attempt_accounts_for_every_item Q throttled_once (fun _ => half)
              5%nat one_record 1%nat Hlt Hthr eq_refl) as (Hr & _ & Hat & _).
  split; [reflexivity|]. split; [reflexivity|]. split; [exact Hr|exact Hat].
Defined.

Lemma process_batch_with_retry_raises_no_client_error_witness :
  process_batch_with_retry (fun _ => exit_breaks) (fun _ => half) one_record 5
  = Raised OtherException
  /\ exists a, (a < 5)%nat /\ exit_raises exit_breaks = Some OtherException.
Proof.
  assert (H : process_batch_with_retry (fun _ => exit_breaks) (fun _ => half) one_record 5
              = Raised OtherException) by reflexivity.
  split; [exact H|].
  exact (proj2 (@process_batch_with_retry_raises_no_client_error Q (fun _ => exit_breaks)
                  (fun _ => half) 5%nat one_record OtherException H)).
Defined.

Lemma batch_write_items_order_independent_witness :
  Permutation [1; 0]%nat (seq 0 (length (split_batches batch_size (numbered 30))))
  /\ batch_write_items
       {| store := store two_batch_pool; uniform := uniform two_batch_pool;
          completion_order := [1; 0]%nat;
          submit_fault := submit_fault two_batch_pool; collect_fault := None |}
       (numbered 30)
     = batch_write_items two_batch_pool (numbered 30).
Proof.
  assert (H1 : Permutation (completion_order two_batch_pool)
                 (seq 0 (length (split_batches batch_size (numbered 30)))))
    by (vm_compute; apply Permutation_refl).
  assert (H2 : Permutation [1; 0]%nat
                 (seq 0 (length (split_batches batch_size (numbered 30)))))
    by (vm_compute; apply perm_swap).
  split; [exact H2|].
  exact (@batch_write_items_order_independent Q two_batch_pool [1; 0]%nat (numbered 30)
           eq_refl H1 H2).
Defined.

Lemma batch_write_items_counts_every_record_witness :
  length (split_batches batch_size (numbered 30)) = 2%nat
  /\ fst (batch_write_items two_batch_pool (numbered 30))
     + snd (batch_write_items two_batch_pool (numbered 30)) = 30.
Proof.
  assert (H1 : Permutation (completion_order two_batch_pool)
                 (seq 0 (length (split_batches batch_size (numbered 30)))))
    by (vm_compute; apply Permutation_refl).
  assert (Hdone : forall i batch,
             nth_error (split_batches batch_size (numbered 30)) i = Some batch ->
             exists a,
               (a < default_max_retries)%nat
               /\ (forall k, (k < a)%nat ->
                     bulk_write_raises (store two_batch_pool i k) batch
                     = Some (ClientError THROTTLED))
               /\ bulk_write_raises (store two_batch_pool i a) batch = None).
  { intros i batch Hnth. exists 1%nat.
    destruct i as [|[|i]];
      [| |destruct i; discriminate Hnth];
      injection Hnth as <-;
      (split; [unfold default_max_retries; lia|]);
      (split; [intros k Hk; destruct k; [reflexivity|lia]|reflexivity]). }
  split; [reflexivity|].
  exact (@batch_write_items_counts_every_record Q two_batch_pool (numbered 30)
           eq_refl eq_refl H1 Hdone).
Defined.

Lemma throttled_flush_is_counted_as_success_witness :
  (forall i attempt,
      (forall pos, put_item_raises (store flush_throttled_pool i attempt) pos = None)
      /\ exit_raises (store flush_throttled_pool i attempt) = Some (ClientError THROTTLED))
  /\ batch_write_items flush_throttled_pool records_25 = (25, 0).
Proof.
  assert (H : forall i attempt,
             (forall pos, put_item_raises (store flush_throttled_pool i attempt) pos = None)
             /\ exit_raises (store flush_throttled_pool i attempt)
                = Some (ClientError THROTTLED))
    by (intros; split; [intros; reflexivity|reflexivity]).
  assert (H1 : Permutation (completion_order flush_throttled_pool)
                 (seq 0 (length (split_batches batch_size records_25))))
    by (vm_compute; apply Permutation_refl).
  split; [exact H|].
  exact (@throttled_flush_is_counted_as_success Q flush_throttled_pool records_25
           eq_refl eq_refl H1 H).
Defined.

Lemma purge_of_empty_table_witness :
  session_items (scan empty_purge) = []
  /\ delete_all_items_from_table empty_purge "local_id" (Some "nombre") = true.
Proof.
  split; [reflexivity|].
  exact (proj1 (@purge_of_empty_table Q empty_purge "local_id" (Some "nombre")
                  eq_refl eq_refl)).
Defined.

Lemma purge_stops_on_scan_fault_witness :
  scan_fault (scan broken_scan_purge) = Some (ClientError "AccessDeniedException")
  /\ delete_requests (delete_all_items_run broken_scan_purge "local_id" (Some "nombre")) = []
  /\ delete_all_items_from_table broken_scan_purge "local_id" (Some "nombre") = false.
Proof.
  destruct (@purge_stops_on_scan_fault Q broken_scan_purge "local_id" (Some "nombre")
              (ClientError "AccessDeniedException") eq_refl) as [Hnone Hfalse].
  split; [reflexivity|]. split; [exact Hnone|].
  apply Hfalse. discriminate.
Defined.


Lemma populate_table_replace_policy_witness :
  describe_table_raises probe_fails_world (table_name productos_config) = None
  /\ scan_limit_1 probe_fails_world = Raised OtherException
  /\ populate_table example_str probe_fails_world "productos.json" productos_config
       (Some "replace")
     = populate_table example_str probe_fails_world "productos.json" productos_config
         (Some "append").
Proof.
  split; [reflexivity|]. split; [reflexivity|].
  exact (proj1 (@populate_table_replace_policy Q example_str probe_fails_world
                  "productos.json" productos_config eq_refl) OtherException eq_refl).
Defined.

Lemma populate_table_purges_only_under_replace_witness :
  Some "append" <> Some "replace"
  /\ populate_table example_str
       {| describe_table_raises := describe_table_raises quiet_world;
          create_table_raises := create_table_raises quiet_world;
          wait_until_exists_raises := wait_until_exists_raises quiet_world;
          scan_limit_1 := Raised OtherException;
          purge := broken_scan_purge;
          json_load := json_load quiet_world;
          pool := pool quiet_world |} "productos.json" productos_config (Some "append")
     = populate_table example_str quiet_world "productos.json" productos_config
         (Some "append").
Proof.
  assert (H : Some "append" <> Some "replace") by discriminate.
  split; [exact H|].
  exact (@populate_table_purges_only_under_replace Q example_str quiet_world
           "productos.json" productos_config (Some "append") (Raised OtherException)
           broken_scan_purge H).
Defined.

Lemma populate_table_file_cases_witness :
  json_load unreadable_world "productos.json" = Raised OtherException
  /\ (json_load quiet_world "productos.json" = Raised FileNotFoundError
      \/ json_load quiet_world "productos.json" = Raised JSONDecodeError ->
      populate_table example_str quiet_world "productos.json" productos_config
        (Some "append") = Returned false)
  /\ exists x l,
       json_load quiet_world "productos.json" = Returned (VList (x :: l))
       /\ populate_table example_str quiet_world "productos.json" productos_config
            (Some "append")
          = Returned (snd (batch_write_items (pool quiet_world)
                             (map (convert_float_to_decimal example_str) (x :: l))) =? 0).
Proof.
  destruct (@populate_table_file_cases Q example_str quiet_world "productos.json"
              productos_config eq_refl) as (Hmissing & _ & _ & Hlist).
  split; [reflexivity|]. split; [exact Hmissing|].
  eexists. eexists. split; [reflexivity|].
  exact (proj1 (Hlist _ _ eq_refl)).
Defined.

Lemma populate_table_new_table_witness :
  describe_table_raises missing_table_world (table_name productos_config)
  = Some (ClientError NOT_FOUND)
  /\ populate_table example_str missing_table_world "productos.json" productos_config
       (Some "replace") = Returned false.
Proof.
  split; [reflexivity|].
  apply (proj1 (@populate_table_new_table Q example_str missing_table_world
                  "productos.json" productos_config (Some "replace") eq_refl)).
  intros request. eexists. reflexivity.
Defined.

Lemma ask_user_action_global_first_valid_line_witness :
  Forall (fun l => example_strip l <> "1" /\ example_strip l <> "2") ["3"; "x"]
  /\ ask_user_action_global example_strip (["3"; "x"] ++ "2" :: ["1"])
     = (Returned "replace", ["1"]).
Proof.
  assert (H : Forall (fun l => example_strip l <> "1" /\ example_strip l <> "2") ["3"; "x"])
    by (repeat constructor; discriminate).
  split; [exact H|].
  exact (proj1 (proj2 (@ask_user_action_global_first_valid_line example_strip
                         ["3"; "x"] "2" ["1"] H)) eq_refl).
Defined.

Lemma get_table_keys_of_mapping_witness :
  In ("productos.json",
      {| entry_table_name := example_getenv "TABLE_PRODUCTOS"; entry_pk := "local_id";
         entry_sk := Some "nombre" |}) (TABLE_MAPPING example_getenv)
  /\ get_table_keys example_getenv "productos.json" = (Some "local_id", Some "nombre").
Proof.
  assert (H : In ("productos.json",
                  {| entry_table_name := example_getenv "TABLE_PRODUCTOS";
                     entry_pk := "local_id"; entry_sk := Some "nombre" |})
                 (TABLE_MAPPING example_getenv))
    by (right; right; left; reflexivity).
  split; [exact H|].
  exact (proj1 (proj1 (get_table_keys_of_mapping example_getenv "productos.json") _ H)).
Defined.

Lemma verify_table_names_lists_skipped_tables_witness :
  In ("usuarios.json",
      {| entry_table_name := example_getenv "TABLE_USUARIOS"; entry_pk := "correo";
         entry_sk := None |}) (TABLE_MAPPING example_getenv)
  /\ In "usuarios.json" (missing_tables example_getenv).
Proof.
  assert (H : In ("usuarios.json",
                  {| entry_table_name := example_getenv "TABLE_USUARIOS";
                     entry_pk := "correo"; entry_sk := None |})
                 (TABLE_MAPPING example_getenv))
    by (right; left; reflexivity).
  split; [exact H|].
  exact (proj2 (proj2 (proj2 (verify_table_names_lists_skipped_tables example_getenv))
                  _ _ H) eq_refl).
Defined.

Lemma main_returns_early_witness :
  verify_credentials no_credentials_run = false
  /\ main example_str example_strip no_credentials_run = Returned None.
Proof.
  split; [reflexivity|].
  exact (@main_returns_early Q example_str example_strip no_credentials_run
           (or_introl eq_refl)).
Defined.

Lemma main_populates_configured_tables_witness :
  map fst (configured (getenv quiet_run)) = ["locales.json"; "productos.json"]
  /\ exists results,
       main example_str example_strip quiet_run = Returned (Some results)
       /\ map fst results = ["locales.json"; "productos.json"].
Proof.
  assert (Hret : forall f c, In (f, c) (configured (getenv quiet_run)) ->
             exists b, populate_entry example_str quiet_run "replace" f c = Returned b).
  { intros f c [H|[H|[]]]; injection H as <- <-; eexists; vm_compute; reflexivity. }
  destruct (@main_populates_configured_tables Q example_str example_strip quiet_run
              "replace" eq_refl eq_refl eq_refl eq_refl eq_refl Hret)
    as (results & Hmain & Hnames & _).
  split; [reflexivity|].
  exists results. split; [exact Hmain|exact Hnames].
Defined.

Lemma main_stops_at_first_exception_witness :
  populate_entry example_str denied_run "replace" "locales.json"
    {| entry_table_name := example_getenv "TABLE_LOCALES"; entry_pk := "local_id";
       entry_sk := None |} = Raised (ClientError "AccessDeniedException")
  /\ main example_str example_strip denied_run
     = Raised (ClientError "AccessDeniedException").
Proof.
  assert (Hraise : populate_entry example_str denied_run "replace" "locales.json"
                     {| entry_table_name := example_getenv "TABLE_LOCALES";
                        entry_pk := "local_id"; entry_sk := None |}
                   = Raised (ClientError "AccessDeniedException")) by reflexivity.
  split; [exact Hraise|].
  destruct (@main_stops_at_first_exception Q example_str example_strip denied_run
              (ClientError "AccessDeniedException") eq_refl eq_refl eq_refl)
    as [_ Hrest].
  destruct (Hrest eq_refl) as [_ Htable].
  apply (Htable "replace" [] "locales.json"
           {| entry_table_name := example_getenv "TABLE_LOCALES"; entry_pk := "local_id";
              entry_sk := None |}
           (tl (TABLE_MAPPING (getenv denied_run))) eq_refl eq_refl).
  - intros f' c' [].
  - reflexivity.
  - exact Hraise.
Defined.
